(** * OSCAR agent invoker: a model of [bedrock/agent_invoker.py]

    The module under study is the class [BedrockAgentCore] of the OSCAR
    Lambda: [create_agent_request] builds the request for the Bedrock
    agent runtime, [invoke_agent] sends it, folds the streamed events
    into a response text and settles the session identifier.

    The Python code is embedded shallowly:
    - a [str] is the list of its code points, [bytes] a list of bytes;
    - the envelope returned by boto3 is typed by the service model, so it
      becomes records whose optional keys are [option] fields;
    - the document parsed out of a trace is untyped, so it is a [json]
      value and every method called on it may raise, as in Python;
    - local variables, the logger and the clock are threaded through a
      state monad in which an exception keeps the state reached so far;
    - [json.loads] and the clock come from outside and are parameters. *)

From Stdlib Require Import List String Ascii ZArith NArith Bool Lia.
From Stdlib.Strings Require Import Byte.
From Stdlib Require Import DecimalString.
Import ListNotations.

Set Implicit Arguments.
Set Warnings "-register-all".

(** ** Python strings and bytes *)

(** A Python [str]: its code points in order. *)
Definition pystr := list N.

(** An ASCII literal of the source as a [str]. *)
Definition py (s : string) : pystr :=
  map N_of_ascii (list_ascii_of_string s).

(** A [bytes] literal [b'...'] of ASCII characters. *)
Definition pybytes (s : string) : list byte := list_byte_of_string s.

Fixpoint pystr_eqb (a b : pystr) : bool :=
  match a, b with
  | [], [] => true
  | x :: a', y :: b' => N.eqb x y && pystr_eqb a' b'
  | _, _ => false
  end.

Fixpoint starts_with (prefix s : pystr) : bool :=
  match prefix, s with
  | [], _ => true
  | p :: prefix', c :: s' => N.eqb p c && starts_with prefix' s'
  | _ :: _, [] => false
  end.

(** [needle in hay] on two strings: substring test. *)
Fixpoint is_substring (needle hay : pystr) : bool :=
  starts_with needle hay ||
  match hay with
  | [] => false
  | _ :: hay' => is_substring needle hay'
  end.

(** [str.isspace] on one code point, the set [str.strip()] removes. *)
Definition py_isspace (c : N) : bool :=
  ((9 <=? c) && (c <=? 13) || (28 <=? c) && (c <=? 32)
   || (c =? 133) || (c =? 160) || (c =? 5760)
   || (8192 <=? c) && (c <=? 8202)
   || (c =? 8232) || (c =? 8233) || (c =? 8239) || (c =? 8287)
   || (c =? 12288))%N.

Fixpoint lstrip (s : pystr) : pystr :=
  match s with
  | c :: s' => if py_isspace c then lstrip s' else s
  | [] => []
  end.

Definition rstrip (s : pystr) : pystr := rev (lstrip (rev s)).

(** [s.strip()] *)
Definition strip (s : pystr) : pystr := rstrip (lstrip s).

(** A continuation byte of UTF-8. *)
Definition is_cont (b : N) : bool := ((128 <=? b) && (b <=? 191))%N.

Definition in_range (lo hi b : N) : bool := ((lo <=? b) && (b <=? hi))%N.

(** Strict UTF-8 decoding of byte values: [None] where Python raises
    [UnicodeDecodeError] (stray or missing continuation bytes, overlong
    forms, surrogates, code points past U+10FFFF). *)
Fixpoint utf8_decode (bs : list N) : option pystr :=
  match bs with
  | [] => Some []
  | b0 :: r0 =>
    if (b0 <? 128)%N then
      option_map (cons b0) (utf8_decode r0)
    else if in_range 194 223 b0 then
      match r0 with
      | b1 :: r1 =>
        if is_cont b1
        then option_map (cons ((b0 - 192) * 64 + (b1 - 128))%N) (utf8_decode r1)
        else None
      | [] => None
      end
    else if in_range 224 239 b0 then
      match r0 with
      | b1 :: b2 :: r2 =>
        let lo := if (b0 =? 224)%N then 160%N else 128%N in
        let hi := if (b0 =? 237)%N then 159%N else 191%N in
        if in_range lo hi b1 && is_cont b2
        then option_map
               (cons ((b0 - 224) * 4096 + (b1 - 128) * 64 + (b2 - 128))%N)
               (utf8_decode r2)
        else None
      | _ => None
      end
    else if in_range 240 244 b0 then
      match r0 with
      | b1 :: b2 :: b3 :: r3 =>
        let lo := if (b0 =? 240)%N then 144%N else 128%N in
        let hi := if (b0 =? 244)%N then 143%N else 191%N in
        if in_range lo hi b1 && is_cont b2 && is_cont b3
        then option_map
               (cons ((b0 - 240) * 262144 + (b1 - 128) * 4096
                      + (b2 - 128) * 64 + (b3 - 128))%N)
               (utf8_decode r3)
        else None
      | _ => None
      end
    else None
  end.

(** [bs.decode('utf-8')] *)
Definition bytes_decode (bs : list byte) : option pystr :=
  utf8_decode (map Byte.to_N bs).

(** [str(n)] for an [int]. *)
Definition str_of_int (z : Z) : pystr :=
  py (NilZero.string_of_int (Z.to_int z)).

(** ** Parsed documents

    What [json.loads] returns.  An object keeps its members as an
    association list in insertion order, the order in which Python
    iterates over a [dict]; [dict_get] reads the first binding of a key.
    A [float] is kept as far as this module can observe one: whether it
    is zero. *)
Inductive json : Type :=
| JNull
| JBool (b : bool)
| JInt (z : Z)
| JFloat (nonzero : bool)
| JStr (s : pystr)
| JArr (items : list json)
| JObj (members : list (pystr * json)).

Fixpoint dict_get (k : pystr) (members : list (pystr * json)) : option json :=
  match members with
  | [] => None
  | (k', v) :: rest => if pystr_eqb k k' then Some v else dict_get k rest
  end.

(** Truth value of an object in a condition. *)
Definition truthy (v : json) : bool :=
  match v with
  | JNull => false
  | JBool b => b
  | JInt z => negb (z =? 0)%Z
  | JFloat nonzero => nonzero
  | JStr s => match s with [] => false | _ => true end
  | JArr items => match items with [] => false | _ => true end
  | JObj members => match members with [] => false | _ => true end
  end.

(** Truth value of an [Optional[str]]: [None] and [''] are false. *)
Definition truthy_opt (o : option pystr) : bool :=
  match o with
  | Some (_ :: _) => true
  | _ => false
  end.

(** [v == s] for a string literal [s]. *)
Definition eq_str (v : json) (s : pystr) : bool :=
  match v with
  | JStr t => pystr_eqb t s
  | _ => false
  end.

Definition is_object (v : json) : bool :=
  match v with
  | JObj _ => true
  | _ => false
  end.

(** ** The envelope of the agent runtime

    Keys that the code probes with [in] or [.get] are [option] fields. *)

(** [event['chunk']] *)
Record chunk := {
  chunk_bytes : option (list byte);
  chunk_sessionId : option pystr
}.

(** [model_output['rawResponse']] *)
Record raw_response := {
  rawResponse_content : option pystr
}.

(** [orch_trace['modelInvocationOutput']] *)
Record model_invocation_output := {
  rawResponse : option raw_response
}.

(** [trace['orchestrationTrace']] *)
Record orchestration_trace := {
  modelInvocationOutput : option model_invocation_output
}.

(** [event['trace']['trace']] *)
Record trace_body := {
  orchestrationTrace : option orchestration_trace
}.

(** [event['trace']] *)
Record trace_part := {
  trace : option trace_body
}.

(** One event of the completion stream; an event of another kind has
    neither key. *)
Record event := {
  event_trace : option trace_part;
  event_chunk : option chunk
}.

(** What [client.invoke_agent] returns.  The completion stream is the
    list of the events it yields; a failure of the transport in the
    middle of the stream is outside the model. *)
Record response := {
  completion : option (list event);
  sessionId : option pystr
}.

(** The request built by [create_agent_request]. *)
Record agent_request := {
  agentId : pystr;
  agentAliasId : pystr;
  inputText : pystr;
  request_sessionId : pystr;
  enableTrace : bool
}.

(** ** Exceptions *)

(** [e.response['Error']] of a botocore [ClientError]. *)
Record error_detail := {
  Code : option pystr;
  Message : option pystr
}.

(** [e.response] *)
Record error_response := {
  Error : option error_detail
}.

(** The exceptions the module can meet.  [OtherException] stands for any
    other subclass of [Exception] ([RecursionError], [ValueError], what
    else the client library raises); [BaseException] for those that are
    not an [Exception]: [KeyboardInterrupt], [SystemExit],
    [GeneratorExit]. *)
Inductive exn : Type :=
| JSONDecodeError
| AttributeError
| TypeError
| KeyError
| UnicodeDecodeError
| ClientError (r : error_response)
| OtherException (name : string)
| BaseException (name : string).

(** [isinstance(e, Exception)] *)
Definition is_Exception (e : exn) : bool :=
  match e with
  | BaseException _ => false
  | _ => true
  end.

(** How a computation ends. *)
Inductive outcome (A : Type) : Type :=
| Raise (e : exn)
| Return (a : A).

Arguments Raise {A} e.
Arguments Return {A} a.

(** ** State: locals of [invoke_agent], the log, the clock *)

Inductive level : Type := DEBUG | INFO | WARNING | ERROR.

(** A record handed to [logger]: its level and the literal head of its
    message (the interpolated values are left out). *)
Definition log_record := (level * string)%type.

(** The locals of [invoke_agent] that live across statements, the
    records logged so far and the number of clock readings taken. *)
Record state := {
  response_text : json;
  returned_session_id : option pystr;
  all_events : list event;
  log : list log_record;
  ticks : nat
}.

(** A computation: it reads and writes the state and either returns or
    raises; the state reached at a [raise] is what a handler sees. *)
Definition M (A : Type) : Type := state -> outcome A * state.

(** [return a], [raise e] and sequencing. *)
Definition ret {A} (a : A) : M A := fun st => (Return a, st).

Definition raise {A} (e : exn) : M A := fun st => (Raise e, st).

Definition bind {A B} (m : M A) (k : A -> M B) : M B :=
  fun st =>
    match m st with
    | (Return a, st') => k a st'
    | (Raise e, st') => (Raise e, st')
    end.

Declare Scope py_scope.
Delimit Scope py_scope with py_.
Notation "x <- m ;; k" := (bind m (fun x => k))
  (at level 61, m at next level, right associativity) : py_scope.
Notation "m ;; k" := (bind m (fun _ => k))
  (at level 61, right associativity) : py_scope.
Open Scope py_scope.

(** [try: body  except ...: handler]; the handler re-raises what it does
    not catch. *)
Definition try_except {A} (body : M A) (handler : exn -> M A) : M A :=
  fun st =>
    match body st with
    | (Raise e, st') => handler e st'
    | r => r
    end.

(** [for x in xs: body] *)
Fixpoint for_each {A} (xs : list A) (body : A -> M unit) : M unit :=
  match xs with
  | [] => ret tt
  | x :: xs' => body x ;; for_each xs' body
  end.

(** [if b: m] *)
Definition when (b : bool) (m : M unit) : M unit :=
  if b then m else ret tt.

(** The two halves of a finished run. *)
Definition result {A} (r : outcome A * state) : outcome A := fst r.

Definition final {A} (r : outcome A * state) : state := snd r.

(** [logger.debug], [.info], [.warning], [.error] *)
Definition logger (l : level) (head : string) : M unit :=
  fun st =>
    (Return tt,
     {| response_text := response_text st;
        returned_session_id := returned_session_id st;
        all_events := all_events st;
        log := log st ++ [(l, head)];
        ticks := ticks st |}).

(** Reads and assignments of the locals. *)
Definition get_response_text : M json :=
  fun st => (Return (response_text st), st).

Definition set_response_text (v : json) : M unit :=
  fun st =>
    (Return tt,
     {| response_text := v;
        returned_session_id := returned_session_id st;
        all_events := all_events st;
        log := log st;
        ticks := ticks st |}).

Definition get_returned_session_id : M (option pystr) :=
  fun st => (Return (returned_session_id st), st).

Definition set_returned_session_id (o : option pystr) : M unit :=
  fun st =>
    (Return tt,
     {| response_text := response_text st;
        returned_session_id := o;
        all_events := all_events st;
        log := log st;
        ticks := ticks st |}).

(** [all_events.append(ev)] *)
Definition append_event (ev : event) : M unit :=
  fun st =>
    (Return tt,
     {| response_text := response_text st;
        returned_session_id := returned_session_id st;
        all_events := all_events st ++ [ev];
        log := log st;
        ticks := ticks st |}).

(** [all_events = []] *)
Definition clear_all_events : M unit :=
  fun st =>
    (Return tt,
     {| response_text := response_text st;
        returned_session_id := returned_session_id st;
        all_events := [];
        log := log st;
        ticks := ticks st |}).

(** ** Python operations on parsed documents *)

(** [v.get(k, default)]: only a [dict] has the method. *)
Definition py_get (v : json) (k : pystr) (default : json) : M json :=
  match v with
  | JObj members =>
    ret (match dict_get k members with Some x => x | None => default end)
  | _ => raise AttributeError
  end.

(** [s in v] for a string literal [s]: key of a [dict], element of a
    [list], substring of a [str]; other values are not containers. *)
Definition py_in (s : pystr) (v : json) : M bool :=
  match v with
  | JObj members =>
    ret (match dict_get s members with Some _ => true | None => false end)
  | JArr items => ret (existsb (fun x => eq_str x s) items)
  | JStr t => ret (is_substring s t)
  | _ => raise TypeError
  end.

(** What [for x in v] runs over: the elements of a [list], the keys of a
    [dict], the characters of a [str]. *)
Definition py_iter (v : json) : M (list json) :=
  match v with
  | JArr items => ret items
  | JObj members => ret (map (fun kv => JStr (fst kv)) members)
  | JStr t => ret (map (fun c => JStr [c]) t)
  | _ => raise TypeError
  end.

(** [v[:200]], evaluated for a log message: a [str] or a [list] can be
    sliced, a [dict] raises [KeyError] on the slice (Python 3.12, the
    runtime of the Lambda), other values are not subscriptable. *)
Definition py_slice (v : json) : M unit :=
  match v with
  | JStr _ | JArr _ => ret tt
  | JObj _ => raise KeyError
  | _ => raise TypeError
  end.

(** [len(v)], evaluated for a log message. *)
Definition py_len (v : json) : M unit :=
  match v with
  | JStr _ | JArr _ | JObj _ => ret tt
  | _ => raise TypeError
  end.

(** [v += s] for a [str] [s]: concatenation on a [str]; a [list] is
    extended by the characters; other values raise. *)
Definition py_iadd (v : json) (s : pystr) : M json :=
  match v with
  | JStr t => ret (JStr (t ++ s))
  | JArr items => ret (JArr (items ++ map (fun c => JStr [c]) s))
  | _ => raise TypeError
  end.

(** [v.strip()]: only a [str] has the method. *)
Definition py_strip (v : json) : M pystr :=
  match v with
  | JStr t => ret (strip t)
  | _ => raise AttributeError
  end.

(** [bs.decode('utf-8')] in the monad. *)
Definition decode (bs : list byte) : M pystr :=
  match bytes_decode bs with
  | Some s => ret s
  | None => raise UnicodeDecodeError
  end.

(** ** [class BedrockAgentCore] *)

(** The attributes set by [__init__] from the configuration; [client] is
    the [invoke_agent] operation of the boto3 client. *)
Record BedrockAgentCore := {
  region : pystr;
  client : agent_request -> outcome response;
  privileged_agent_id : pystr;
  privileged_agent_alias_id : pystr;
  limited_agent_id : pystr;
  limited_agent_alias_id : pystr;
  timeout : Z;
  max_retries : Z
}.

(** The name of the tool by which the agent sends a message. *)
Definition sendMessage : pystr := py "AgentCommunication__sendMessage".

Section Invoker.

(** [json.loads] on a [str]: the document, or the exception it raises:
    [JSONDecodeError] on a text that is not a JSON document, and also
    [RecursionError] on a text nested too deep and [ValueError] on an
    integer beyond the digit limit. *)
Variable json_loads : pystr -> outcome json.

(** [int(time.time())] at its successive evaluations. *)
Variable clock : nat -> Z.

(** [json.loads(raw)] in the monad. *)
Definition loads (raw : pystr) : M json :=
  fun st => (json_loads raw, st).

(** [int(time.time())]: read the clock, which moves on. *)
Definition time_now : M Z :=
  fun st =>
    (Return (clock (ticks st)),
     {| response_text := response_text st;
        returned_session_id := returned_session_id st;
        all_events := all_events st;
        log := log st;
        ticks := S (ticks st) |}).

(** [f"session-{int(time.time())}"] *)
Definition new_session_id : M pystr :=
  t <- time_now ;; ret (py "session-" ++ str_of_int t).

(** [create_agent_request], lines 58-82. *)
Definition create_agent_request (self : BedrockAgentCore)
  (query : pystr) (privilege : bool) (session_id : option pystr)
  : M agent_request :=
  let agent_id := limited_agent_id self in
  let alias_id := limited_agent_alias_id self in
  let agent_id := if privilege then privileged_agent_id self else agent_id in
  let alias_id := if privilege then privileged_agent_alias_id self else alias_id in
  sid <- match session_id with
         | Some (c :: s) => ret (c :: s)
         | _ => new_session_id
         end ;;
  ret {| agentId := agent_id;
         agentAliasId := alias_id;
         inputText := query;
         request_sessionId := sid;
         enableTrace := true |}.

(** Body of the loop over the content items, lines 141-150. *)
Definition scan_content_item (content_item : json) : M unit :=
  has_tool <- py_in (py "toolUse") content_item ;;
  when has_tool (
    tool_use <- py_get content_item (py "toolUse") JNull ;;
    when (truthy tool_use) (
      name <- py_get tool_use (py "name") JNull ;;
      when (eq_str name sendMessage) (
        tool_input <- py_get tool_use (py "input") (JObj []) ;;
        recipient <- py_get tool_input (py "recipient") JNull ;;
        when (eq_str recipient (py "User")) (
          extracted_content <- py_get tool_input (py "content") (JStr []) ;;
          when (truthy extracted_content) (
            set_response_text extracted_content ;;
            py_slice extracted_content ;;
            logger INFO "Extracted response from AgentCommunication tool: "))))).

(** The [try] block of lines 134-150. *)
Definition scan_raw_response (raw_content : pystr) : M unit :=
  parsed <- loads raw_content ;;
  output <- py_get parsed (py "output") (JObj []) ;;
  message <- py_get output (py "message") (JObj []) ;;
  message_content <- py_get message (py "content") (JArr []) ;;
  items <- py_iter message_content ;;
  for_each items scan_content_item.

(** The handler of line 151: it catches [JSONDecodeError] alone. *)
Definition on_parse_error (e : exn) : M unit :=
  match e with
  | JSONDecodeError => logger WARNING "Failed to parse raw response: "
  | _ => raise e
  end.

(** The trace half of the loop body, lines 121-152. *)
Definition handle_trace (ev : event) : M unit :=
  match event_trace ev with
  | Some tr =>
    logger INFO "TRACE EVENT: " ;;
    match trace tr with
    | Some body =>
      match orchestrationTrace body with
      | Some orch_trace =>
        match modelInvocationOutput orch_trace with
        | Some model_output =>
          match rawResponse model_output with
          | Some raw =>
            let raw_content :=
              match rawResponse_content raw with
              | Some s => s
              | None => py ""
              end in
            try_except (scan_raw_response raw_content) on_parse_error
          | None => ret tt
          end
        | None => ret tt
        end
      | None => ret tt
      end
    | None => ret tt
    end
  | None => ret tt
  end.

(** The chunk half of the loop body, lines 156-170. *)
Definition handle_chunk (ev : event) : M unit :=
  match event_chunk ev with
  | Some ch =>
    logger INFO "Chunk keys: " ;;
    logger INFO "Full chunk: " ;;
    match chunk_bytes ch with
    | Some bs =>
      chunk_text <- decode bs ;;
      current <- get_response_text ;;
      when (negb (truthy current)) (
        extended <- py_iadd current chunk_text ;;
        set_response_text extended) ;;
      logger INFO "Added chunk text (first 500 chars): "
    | None => ret tt
    end ;;
    match chunk_sessionId ch with
    | Some sid =>
      set_returned_session_id (Some sid) ;;
      logger DEBUG "Found session ID in chunk: "
    | None => ret tt
    end
  | None => ret tt
  end.

(** The loop body, lines 117-170. *)
Definition handle_event (ev : event) : M unit :=
  append_event ev ;;
  logger INFO "Event keys: " ;;
  handle_trace ev ;;
  logger INFO "Full event: " ;;
  handle_chunk ev.

(** Lines 177-189: which session id is handed back. *)
Definition resolve_session_id (resp : response) (session_id : option pystr)
  : M unit :=
  match sessionId resp with
  | Some sid =>
    set_returned_session_id (Some sid) ;;
    logger DEBUG "Found session ID at top level: "
  | None =>
    found <- get_returned_session_id ;;
    if negb (truthy_opt found) && truthy_opt session_id then
      set_returned_session_id session_id ;;
      logger DEBUG "Using request session ID: "
    else
      fresh <- new_session_id ;;
      set_returned_session_id (Some fresh) ;;
      logger DEBUG "Generated new session ID: "
  end.

(** Lines 107-172: initialise the locals and run the loop. *)
Definition consume (resp : response) : M unit :=
  logger INFO "Full response keys: " ;;
  set_response_text (JStr (py "")) ;;
  set_returned_session_id None ;;
  clear_all_events ;;
  match completion resp with
  | Some events =>
    logger INFO "Found 'completion' in response" ;;
    for_each events handle_event
  | None => logger WARNING "No 'completion' key in response"
  end.

(** Lines 174-194: settle the session id and return. *)
Definition conclude (resp : response) (session_id : option pystr)
  : M (pystr * option pystr) :=
  logger INFO "Total events processed: " ;;
  resolve_session_id resp session_id ;;
  logger INFO "Response: " ;;
  text <- get_response_text ;;
  py_len text ;;
  logger INFO "Agent response received, length: " ;;
  logger INFO "Final session ID: " ;;
  stripped <- py_strip text ;;
  sid <- get_returned_session_id ;;
  ret (stripped, sid).

(** The [try] block once the client has answered, lines 107-194. *)
Definition process_response (resp : response) (session_id : option pystr)
  : M (pystr * option pystr) :=
  consume resp ;;
  conclude resp session_id.

(** [self.client.invoke_agent] applied to the request. *)
Definition call_client (self : BedrockAgentCore) (request : agent_request)
  : M response :=
  fun st => (client self request, st).

(** [e.response['Error'][key]] in the handler of [ClientError]. *)
Definition error_field (field : error_detail -> option pystr)
  (r : error_response) : M pystr :=
  match Error r with
  | Some detail =>
    match field detail with
    | Some s => ret s
    | None => raise KeyError
    end
  | None => raise KeyError
  end.

(** The two handlers of lines 196-203; each logs and re-raises.  The
    second is [except Exception]: what is not an [Exception] passes both
    and leaves the call as it is. *)
Definition on_failure {A} (e : exn) : M A :=
  match e with
  | ClientError r =>
    error_field Code r ;;
    error_field Message r ;;
    logger ERROR "Bedrock agent error" ;;
    raise e
  | BaseException _ => raise e
  | _ =>
    logger ERROR "Unexpected error invoking agent: " ;;
    raise e
  end.

(** [invoke_agent], lines 84-203. *)
Definition invoke_agent (self : BedrockAgentCore)
  (query : pystr) (privilege : bool) (session_id : option pystr)
  : M (pystr * option pystr) :=
  request <- create_agent_request self query privilege session_id ;;
  logger INFO "Invoking agent with request: " ;;
  logger INFO "Query: " ;;
  try_except
    (resp <- call_client self request ;;
     process_response resp session_id)
    on_failure.

End Invoker.

(** ** The stream as the specification reads it

    The definitions of this part follow the words of the specification,
    not the code: what a send-message tool invocation is, which ones a
    stream carries and in which order.  They are compared with the code
    in the properties below. *)

(** [v[k]] where [v] is an object that has the member. *)
Definition field (k : pystr) (v : json) : option json :=
  match v with
  | JObj members => dict_get k members
  | _ => None
  end.

(** The content of a content item that is a tool invocation of
    [AgentCommunication__sendMessage] with recipient ['User'] and a
    non-empty content; [None] for any other item. *)
Definition user_message (item : json) : option json :=
  match field (py "toolUse") item with
  | Some tool_use =>
    match field (py "name") tool_use, field (py "input") tool_use with
    | Some name, Some input =>
      match field (py "recipient") input, field (py "content") input with
      | Some recipient, Some content =>
        if eq_str name sendMessage && eq_str recipient (py "User")
           && truthy content
        then Some content
        else None
      | _, _ => None
      end
    | _, _ => None
    end
  | None => None
  end.

(** The content items of a parsed model output:
    [output.message.content] when that is an array. *)
Definition content_items (parsed : json) : list json :=
  match field (py "output") parsed with
  | Some output =>
    match field (py "message") output with
    | Some message =>
      match field (py "content") message with
      | Some (JArr items) => items
      | _ => []
      end
    | None => []
    end
  | None => []
  end.

(** The values that [f] gives on the elements of [l], in order. *)
Fixpoint collect {A B} (f : A -> option B) (l : list A) : list B :=
  match l with
  | [] => []
  | x :: l' =>
    match f x with
    | Some y => y :: collect f l'
    | None => collect f l'
    end
  end.

(** The last element of a list, if any. *)
Fixpoint last_of {A} (l : list A) : option A :=
  match l with
  | [] => None
  | [x] => Some x
  | _ :: l' => last_of l'
  end.

(** The last element of [l], or [d] for the empty list. *)
Definition last_or {A} (l : list A) (d : A) : A :=
  match last_of l with
  | Some x => x
  | None => d
  end.

(** The raw-response payload of the model-invocation output of a trace
    event: the text handed to [json.loads]. *)
Definition raw_payload (ev : event) : option pystr :=
  match event_trace ev with
  | Some tr =>
    match trace tr with
    | Some body =>
      match orchestrationTrace body with
      | Some orch_trace =>
        match modelInvocationOutput orch_trace with
        | Some model_output =>
          match rawResponse model_output with
          | Some raw =>
            Some (match rawResponse_content raw with
                  | Some s => s
                  | None => py ""
                  end)
          | None => None
          end
        | None => None
        end
      | None => None
      end
    | None => None
    end
  | None => None
  end.

(** The messages to the user that one event carries, in order. *)
Definition event_messages (json_loads : pystr -> outcome json) (ev : event)
  : list json :=
  match raw_payload ev with
  | Some raw =>
    match json_loads raw with
    | Return parsed => collect user_message (content_items parsed)
    | Raise _ => []
    end
  | None => []
  end.

(** The messages to the user of a whole stream, in arrival order. *)
Definition stream_messages (json_loads : pystr -> outcome json)
  (events : list event) : list json :=
  flat_map (event_messages json_loads) events.

(** The session id that the chunk of an event carries, if any. *)
Definition chunk_session (ev : event) : option pystr :=
  match event_chunk ev with
  | Some ch => chunk_sessionId ch
  | None => None
  end.

(** An event that is a chunk and nothing else, with a non-empty payload
    that decodes to [t]. *)
Definition text_chunk (ev : event) (t : pystr) : Prop :=
  event_trace ev = None /\
  exists ch bs,
    event_chunk ev = Some ch /\ chunk_bytes ch = Some bs /\
    bs <> [] /\ bytes_decode bs = Some t.

(** ** Vocabulary of the properties *)

(** The event without its trace. *)
Definition drop_trace (ev : event) : event :=
  {| event_trace := None; event_chunk := event_chunk ev |}.

(** The event without its chunk. *)
Definition drop_chunk (ev : event) : event :=
  {| event_trace := event_trace ev; event_chunk := None |}.

(** The same envelope around another stream. *)
Definition with_completion (resp : response) (events : list event) : response :=
  {| completion := Some events; sessionId := sessionId resp |}.

(** The same agent core around another client. *)
Definition with_client (self : BedrockAgentCore)
  (c : agent_request -> outcome response) : BedrockAgentCore :=
  {| region := region self;
     client := c;
     privileged_agent_id := privileged_agent_id self;
     privileged_agent_alias_id := privileged_agent_alias_id self;
     limited_agent_id := limited_agent_id self;
     limited_agent_alias_id := limited_agent_alias_id self;
     timeout := timeout self;
     max_retries := max_retries self |}.

(** The same agent core when the service answers [resp]. *)
Definition answering (self : BedrockAgentCore) (resp : response)
  : BedrockAgentCore :=
  with_client self (fun _ => Return resp).

(** What the handlers of [invoke_agent] raise when the [try] block raised
    [e]: [e] itself, unless reading the code and message of a
    [ClientError] fails first. *)
Definition reraised (e : exn) : exn :=
  match e with
  | ClientError {| Error := Some {| Code := Some _; Message := Some _ |} |} => e
  | ClientError _ => KeyError
  | _ => e
  end.

(** The state in which the [try] block of [invoke_agent] starts: the
    request has been built, which read the clock when the caller gave no
    session id, and two records have been logged. *)
Definition entered (session_id : option pystr) (st : state) : state :=
  {| response_text := response_text st;
     returned_session_id := returned_session_id st;
     all_events := all_events st;
     log := (log st ++ [(INFO, "Invoking agent with request: "%string)])
            ++ [(INFO, "Query: "%string)];
     ticks := if truthy_opt session_id then ticks st else S (ticks st) |}.

(** The state in which the loop over the events starts, from the state
    [st] in which the [try] block found an envelope with a stream. *)
Definition looping (st : state) : state :=
  {| response_text := JStr (py "");
     returned_session_id := None;
     all_events := [];
     log := (log st ++ [(INFO, "Full response keys: "%string)])
            ++ [(INFO, "Found 'completion' in response"%string)];
     ticks := ticks st |}.

(** Two states that differ at most in the log and in [all_events]. *)
Definition same_locals (a b : state) : Prop :=
  response_text a = response_text b /\
  returned_session_id a = returned_session_id b /\
  ticks a = ticks b.

(** Two runs that end alike: same outcome, same locals. *)
Definition related {A} (r1 r2 : outcome A * state) : Prop :=
  result r1 = result r2 /\ same_locals (final r1) (final r2).

(** A computation that only adds to the log and whose outcome depends on
    the state through the locals and the clock alone. *)
Definition tame {A} (m : M A) : Prop :=
  (forall st, incl (log st) (log (final (m st)))) /\
  (forall a b, same_locals a b -> related (m a) (m b)).

(** ** Sample data for the examples *)

(** JSON text spelt with apostrophes for its double quotes. *)
Definition json_text (s : string) : pystr :=
  map (fun c => if (c =? 39)%N then 34%N else c) (py s).

(** The model output whose only content item sends [content] to the
    user. *)
Definition send_to_user (content : json) : json :=
  JObj [(py "output",
    JObj [(py "message",
      JObj [(py "content",
        JArr [JObj [(py "toolUse",
          JObj [(py "name", JStr sendMessage);
                (py "input",
                 JObj [(py "recipient", JStr (py "User"));
                       (py "content", content)])])]])])])].

(** Two payloads that send a message to the user, one that is an array,
    one that is not JSON, and one of a hundred thousand opening brackets. *)
Definition text_hello : pystr :=
  json_text "{'output': {'message': {'content': [{'toolUse': {'name': 'AgentCommunication__sendMessage', 'input': {'recipient': 'User', 'content': 'Hello from the tool'}}}]}}}".

Definition text_bye : pystr :=
  json_text "{'output': {'message': {'content': [{'toolUse': {'name': 'AgentCommunication__sendMessage', 'input': {'recipient': 'User', 'content': 'Bye'}}}]}}}".

Definition text_array : pystr := py "[1, 2]".

Definition text_broken : pystr := py "{not json".

Definition text_deep : pystr := repeat 91%N (N.to_nat 100000).

(** [json.loads] on the texts above: the three well-formed ones, as a
    table, with the documents they denote; on [text_deep] the parser
    gives up with [RecursionError]; [text_broken], like any other text
    outside the table, is answered with [JSONDecodeError]. *)
Definition sample_documents : list (pystr * json) :=
  [ (text_hello, send_to_user (JStr (py "Hello from the tool")));
    (text_bye, send_to_user (JStr (py "Bye")));
    (text_array, JArr [JInt 1; JInt 2]) ].

(** [json.loads] read off the table. *)
Definition loads_from (documents : list (pystr * json)) (raw : pystr)
  : outcome json :=
  match dict_get raw documents with
  | Some parsed => Return parsed
  | None =>
    if pystr_eqb raw text_deep
    then Raise (OtherException "RecursionError")
    else Raise JSONDecodeError
  end.

Definition sample_loads (raw : pystr) : outcome json :=
  loads_from sample_documents raw.

(** A clock that starts at 1700000000 and gains a second per reading. *)
Definition sample_clock (n : nat) : Z := (1700000000 + Z.of_nat n)%Z.

(** A trace event whose model-invocation output has the payload [raw]. *)
Definition trace_event (raw : pystr) : event :=
  {| event_trace :=
       Some {| trace :=
         Some {| orchestrationTrace :=
           Some {| modelInvocationOutput :=
             Some {| rawResponse :=
               Some {| rawResponse_content := Some raw |} |} |} |} |};
     event_chunk := None |}.

(** A chunk event with the bytes [bs] and, optionally, a session id. *)
Definition chunk_event (bs : list byte) (sid : option pystr) : event :=
  {| event_trace := None;
     event_chunk := Some {| chunk_bytes := Some bs; chunk_sessionId := sid |} |}.

(** An agent core whose client answers every request with [answer]. *)
Definition sample_core (answer : outcome response) : BedrockAgentCore :=
  {| region := py "us-east-1";
     client := fun _ => answer;
     privileged_agent_id := py "PRIVAGENT1";
     privileged_agent_alias_id := py "PRIVALIAS1";
     limited_agent_id := py "LIMAGENT01";
     limited_agent_alias_id := py "LIMALIAS01";
     timeout := 60;
     max_retries := 3 |}.

(** The answer of the service: a stream and, optionally, a session id. *)
Definition stream (events : list event) (sid : option pystr) : outcome response :=
  Return {| completion := Some events; sessionId := sid |}.

(** An envelope that has neither a stream nor a session id. *)
Definition no_completion : outcome response :=
  Return {| completion := None; sessionId := None |}.

(** A service error as botocore reports throttling. *)
Definition throttled : error_response :=
  {| Error := Some {| Code := Some (py "ThrottlingException");
                      Message := Some (py "Rate exceeded") |} |}.

(** The state in which a call starts. *)
Definition start : state :=
  {| response_text := JNull;
     returned_session_id := None;
     all_events := [];
     log := [];
     ticks := 0 |}.

(** ** More of the invoker: events that carry nothing, chunk text,
    [__init__] *)

(** An event from which the loop takes nothing: no raw-response payload,
    and no chunk, or a chunk with neither bytes nor a session id. *)
Definition inert (ev : event) : Prop :=
  raw_payload ev = None /\
  match event_chunk ev with
  | Some ch => chunk_bytes ch = None /\ chunk_sessionId ch = None
  | None => True
  end.

(** The decoded payload of the chunk of an event, if it has one that
    decodes. *)
Definition chunk_text (ev : event) : option pystr :=
  match event_chunk ev with
  | Some ch =>
    match chunk_bytes ch with
    | Some bs => bytes_decode bs
    | None => None
    end
  | None => None
  end.

(** The first string of [l] that is not empty, or the empty string. *)
Fixpoint first_nonempty (l : list pystr) : pystr :=
  match l with
  | [] => []
  | [] :: l' => first_nonempty l'
  | s :: _ => s
  end.

(** The attributes of the imported [config] object that the class reads. *)
Record Config := {
  config_region : pystr;
  oscar_privileged_bedrock_agent_id : pystr;
  oscar_privileged_bedrock_agent_alias_id : pystr;
  oscar_limited_bedrock_agent_id : pystr;
  oscar_limited_bedrock_agent_alias_id : pystr;
  agent_timeout : Z;
  agent_max_retries : Z
}.

(** [BedrockAgentCore.__init__], lines 28-56.  [boto3_client] is
    [boto3.client('bedrock-agent-runtime', region_name=...)], which may
    raise. *)
Definition init (config : Config)
  (boto3_client : pystr -> outcome (agent_request -> outcome response))
  (region_arg : option pystr) : M BedrockAgentCore :=
  let region_name :=
    match region_arg with
    | Some (c :: s) => c :: s
    | _ => config_region config
    end in
  runtime <- (fun st => (boto3_client region_name, st)) ;;
  let self :=
    {| region := region_name;
       client := runtime;
       privileged_agent_id := oscar_privileged_bedrock_agent_id config;
       privileged_agent_alias_id := oscar_privileged_bedrock_agent_alias_id config;
       limited_agent_id := oscar_limited_bedrock_agent_id config;
       limited_agent_alias_id := oscar_limited_bedrock_agent_alias_id config;
       timeout := agent_timeout config;
       max_retries := agent_max_retries config |} in
  logger INFO "Initialized BedrockAgentCore - Privileged ID: " ;;
  ret self.

(** A configuration and a client factory for the examples. *)
Definition sample_config : Config :=
  {| config_region := py "us-east-1";
     oscar_privileged_bedrock_agent_id := py "PRIVAGENT1";
     oscar_privileged_bedrock_agent_alias_id := py "PRIVALIAS1";
     oscar_limited_bedrock_agent_id := py "LIMAGENT01";
     oscar_limited_bedrock_agent_alias_id := py "LIMALIAS01";
     agent_timeout := 60;
     agent_max_retries := 3 |}.

Definition sample_boto3 (region_name : pystr)
  : outcome (agent_request -> outcome response) :=
  Return (fun _ => stream [] None).

(** An event of a kind the loop does not know. *)
Definition unknown_event : event :=
  {| event_trace := None; event_chunk := None |}.

(** A payload whose tool invocation sends a number, and [json.loads] on
    it and on the texts of [sample_documents]. *)
Definition text_number : pystr :=
  json_text "{'output': {'message': {'content': [{'toolUse': {'name': 'AgentCommunication__sendMessage', 'input': {'recipient': 'User', 'content': 42}}}]}}}".

Definition more_loads (raw : pystr) : outcome json :=
  loads_from ((text_number, send_to_user (JInt 42)) :: sample_documents) raw.

(** A service error without a message. *)
Definition no_message : error_response :=
  {| Error := Some {| Code := Some (py "ThrottlingException");
                      Message := None |} |}.

(** ** SSM parameter paths, [stacks/bedrock_agent_details.py] *)

(** [class BedrockAgentDetails] *)
Record BedrockAgentDetails := {
  jenkins_agent_id : pystr;
  jenkins_agent_alias : pystr;
  metrics_build_agent_id : pystr;
  metrics_build_agent_alias : pystr;
  metrics_test_agent_id : pystr;
  metrics_test_agent_alias : pystr;
  metrics_release_agent_id : pystr;
  metrics_release_agent_alias : pystr;
  supervisor_agent_id : pystr;
  supervisor_agent_alias : pystr;
  limited_supervisor_agent_id : pystr;
  limited_supervisor_agent_alias : pystr
}.

(** [get_ssm_param_paths], lines 30-54. *)
Definition get_ssm_param_paths (env : pystr) : BedrockAgentDetails :=
  {| jenkins_agent_id :=
       py "/oscar/" ++ env ++ py "/bedrock/jenkins-agent-id";
     jenkins_agent_alias :=
       py "/oscar/" ++ env ++ py "/bedrock/jenkins-agent-alias";
     metrics_build_agent_id :=
       py "/oscar/" ++ env ++ py "/bedrock/metrics-build-agent-id";
     metrics_build_agent_alias :=
       py "/oscar/" ++ env ++ py "/bedrock/metrics-build-agent-alias";
     metrics_test_agent_id :=
       py "/oscar/" ++ env ++ py "/bedrock/metrics-test-agent-id";
     metrics_test_agent_alias :=
       py "/oscar/" ++ env ++ py "/bedrock/metrics-test-agent-alias";
     metrics_release_agent_id :=
       py "/oscar/" ++ env ++ py "/bedrock/metrics-release-agent-id";
     metrics_release_agent_alias :=
       py "/oscar/" ++ env ++ py "/bedrock/metrics-release-agent-alias";
     supervisor_agent_id :=
       py "/oscar/" ++ env ++ py "/bedrock/supervisor-agent-id";
     supervisor_agent_alias :=
       py "/oscar/" ++ env ++ py "/bedrock/supervisor-agent-alias";
     limited_supervisor_agent_id :=
       py "/oscar/" ++ env ++ py "/bedrock/limited-supervisor-agent-id";
     limited_supervisor_agent_alias :=
       py "/oscar/" ++ env ++ py "/bedrock/limited-supervisor-agent-alias" |}.

(** The twelve paths of a record, in the order of its fields. *)
Definition param_paths (d : BedrockAgentDetails) : list pystr :=
  [ jenkins_agent_id d; jenkins_agent_alias d;
    metrics_build_agent_id d; metrics_build_agent_alias d;
    metrics_test_agent_id d; metrics_test_agent_alias d;
    metrics_release_agent_id d; metrics_release_agent_alias d;
    supervisor_agent_id d; supervisor_agent_alias d;
    limited_supervisor_agent_id d; limited_supervisor_agent_alias d ].

(** The part of each path that follows the environment name. *)
Definition param_suffixes : list pystr :=
  [ py "/bedrock/jenkins-agent-id"; py "/bedrock/jenkins-agent-alias";
    py "/bedrock/metrics-build-agent-id"; py "/bedrock/metrics-build-agent-alias";
    py "/bedrock/metrics-test-agent-id"; py "/bedrock/metrics-test-agent-alias";
    py "/bedrock/metrics-release-agent-id";
    py "/bedrock/metrics-release-agent-alias";
    py "/bedrock/supervisor-agent-id"; py "/bedrock/supervisor-agent-alias";
    py "/bedrock/limited-supervisor-agent-id";
    py "/bedrock/limited-supervisor-agent-alias" ].

(** No string of [l] is a proper prefix of another one. *)
Definition prefix_free (l : list pystr) : bool :=
  forallb (fun a => forallb (fun b => implb (starts_with a b) (pystr_eqb a b)) l) l.

(** ** The documentation uploader, [lambda/knowledge-base/docs_uploader.py]:
    [cleanup_non_markdown_files] *)

(** A clone on disk: regular files and directories.  A directory lists
    its entries by name, in the order of [os.listdir]; what a file holds
    plays no part.  Links and failures of the file system are outside
    the model. *)
Inductive node : Type :=
| File
| Dir (entries : list (pystr * node)).

Definition is_dir (n : node) : bool :=
  match n with
  | Dir _ => true
  | File => false
  end.

(** [s.endswith(suffix)] *)
Definition ends_with (s suffix : pystr) : bool :=
  starts_with (rev suffix) (rev s).

(** [s in l] for a set of strings. *)
Definition mem (s : pystr) (l : list pystr) : bool :=
  existsb (pystr_eqb s) l.

(** The two sets of lines 107-109. *)
Definition excluded_dirs : list pystr :=
  [ py ".git"; py "node_modules"; py "build"; py "dist"; py "target";
    py ".github" ].

Definition excluded_files : list pystr :=
  [ py "maintainers.md"; py "code_of_conduct.md"; py "contributing.md";
    py "license.md"; py "notice.md"; py ".gitignore" ].

(** [str.lower] on ASCII letters, for the examples. *)
Definition ascii_lower (s : pystr) : pystr :=
  map (fun c => if ((65 <=? c) && (c <=? 90))%N then (c + 32)%N else c) s.

Section Cleanup.

(** [str.lower] *)
Variable lower : pystr -> pystr.

(** The test of line 123: the file is removed. *)
Definition removed_file (file : pystr) : bool :=
  let file_lower := lower file in
  negb (ends_with file (py ".md"))
  || mem file_lower excluded_files
  || starts_with (py "admins") file_lower.

(** First pass, lines 111-115: the excluded directories directly under
    the root of the clone are removed with all they hold. *)
Definition remove_excluded_dirs (entries : list (pystr * node))
  : list (pystr * node) :=
  filter (fun item => negb (is_dir (snd item) && mem (fst item) excluded_dirs))
         entries.

(** Second pass, lines 117-128, on one directory: [os.walk] goes bottom
    up, so the directories below are done first; then the files that
    fail the test are removed, and a directory left empty is removed by
    its parent's turn of the walk ([sweep] empties it, the parent drops
    it). *)
Fixpoint sweep (n : node) : node :=
  match n with
  | File => File
  | Dir entries =>
    Dir ((fix sweep_list (es : list (pystr * node)) : list (pystr * node) :=
            match es with
            | [] => []
            | (name, child) :: rest =>
              match child with
              | File =>
                if removed_file name then sweep_list rest
                else (name, File) :: sweep_list rest
              | Dir _ =>
                match sweep child with
                | Dir [] => sweep_list rest
                | kept => (name, kept) :: sweep_list rest
                end
              end
            end) entries)
  end.

(** The second pass on the entries of a directory. *)
Definition sweep_entries (entries : list (pystr * node)) : list (pystr * node) :=
  match sweep (Dir entries) with
  | Dir kept => kept
  | File => []
  end.

(** [cleanup_non_markdown_files], lines 105-128, on the entries of the
    root of the clone; the root itself is never removed. *)
Definition cleanup_non_markdown_files (repo : list (pystr * node))
  : list (pystr * node) :=
  sweep_entries (remove_excluded_dirs repo).

End Cleanup.

(** There is a file at [path] (directory names, then the file name)
    below a directory with these entries. *)
Fixpoint has_file (path : list pystr) (entries : list (pystr * node))
  {struct path} : bool :=
  match path with
  | [] => false
  | name :: rest =>
    existsb (fun e =>
               pystr_eqb (fst e) name &&
               match rest, snd e with
               | [], File => true
               | _ :: _, Dir sub => has_file rest sub
               | _, _ => false
               end) entries
  end.

(** The path does not start in an excluded directory of the root. *)
Definition outside_excluded_dirs (path : list pystr) : bool :=
  match path with
  | top :: _ :: _ => negb (mem top excluded_dirs)
  | _ => true
  end.

(** No directory below these entries is empty. *)
Fixpoint no_empty_dir (n : node) : bool :=
  match n with
  | File => true
  | Dir entries =>
    (fix all (es : list (pystr * node)) : bool :=
       match es with
       | [] => true
       | (_, child) :: rest =>
         match child with
         | File => true
         | Dir [] => false
         | Dir _ => no_empty_dir child
         end && all rest
       end) entries
  end.

(** A clone for the examples. *)
Definition sample_clone : list (pystr * node) :=
  [ (py "README.md", File);
    (py "MAINTAINERS.md", File);
    (py "setup.py", File);
    (py ".github", Dir [(py "PULL_REQUEST_TEMPLATE.md", File)]);
    (py "src", Dir [(py "main.py", File); (py "pkg", Dir [(py "a.py", File)])]);
    (py "docs", Dir [ (py "guide.md", File);
                      (py "node_modules", Dir [(py "dep.md", File)]);
                      (py "ADMINS.md", File) ]) ].

(** ** The documentation uploader: [lambda_handler], [clone_repository],
    [sync_to_s3]

    The handler talks to the outside through [tempfile], [subprocess],
    [os.path] and [shutil].  The outside is a state of any type [W] with
    one operation per call the code makes (a [Host]); every call is
    recorded, with whether it succeeded, in the order made.  The event is
    whatever JSON the Lambda is invoked with. *)

(** [str.split(sep)] *)
Fixpoint split_on (sep : N) (s : pystr) : list pystr :=
  match s with
  | [] => [[]]
  | c :: s' =>
    if (c =? sep)%N then [] :: split_on sep s'
    else
      match split_on sep s' with
      | piece :: pieces => (c :: piece) :: pieces
      | [] => [[c]]
      end
  end.

(** [os.path.join(a, b)] on POSIX. *)
Definition path_join (a b : pystr) : pystr :=
  if starts_with (py "/") b then b
  else if match a with [] => true | _ => false end || ends_with a (py "/")
       then a ++ b
       else a ++ py "/" ++ b.

Module Uploader.

(** The exceptions the handler can meet.  [OtherError] stands for any
    other subclass of [Exception]; [BaseException] for those that are
    not an [Exception]: [KeyboardInterrupt], [SystemExit]. *)
Inductive error : Type :=
| CalledProcessError (stderr : pystr)
| AttributeError
| TypeError
| OtherError (name : string)
| BaseException (name : string).

(** [isinstance(e, Exception)] *)
Definition is_Exception (e : error) : bool :=
  match e with
  | BaseException _ => false
  | _ => true
  end.

(** How a computation of the uploader ends. *)
Inductive attempt (A : Type) : Type :=
| Failed (e : error)
| Done (a : A).

Arguments Failed {A} e.
Arguments Done {A} a.

(** The calls on the outside. *)
Inductive call : Type :=
| Mkdtemp
| GitClone (repo_url repo_path : pystr)
| Cleanup (repo_path : pystr)
| S3Sync (local_dir destination : pystr)
| PathExists (path : pystr)
| Rmtree (path : pystr).

(** The dictionary that the handler returns. *)
Record reply := {
  statusCode : Z;
  message : pystr;
  sync_output : option pystr
}.

(** The outside: the environment variable, and what each call does to a
    state of the outside and answers.  [cleanup_on_disk] is
    [cleanup_non_markdown_files] run on the disk at the path given;
    [error_text] is [str(e)]. *)
Record Host (W : Type) := {
  environ_bucket : option pystr;
  mkdtemp : W -> attempt pystr * W;
  git_clone : pystr -> pystr -> W -> attempt unit * W;
  cleanup_on_disk : pystr -> W -> attempt unit * W;
  aws_s3_sync : pystr -> pystr -> W -> attempt pystr * W;
  path_exists : pystr -> W -> bool;
  rmtree : pystr -> W -> attempt unit * W;
  error_text : error -> pystr
}.

(** The state of a run: the outside, the calls made so far with their
    success, the records logged, and the local [temp_dir], which the
    [finally] clause reads. *)
Record run (W : Type) := {
  outside : W;
  calls : list (call * bool);
  records : list log_record;
  temp_dir : option pystr
}.

Arguments outside {W} r.
Arguments calls {W} r.
Arguments records {W} r.
Arguments temp_dir {W} r.

(** [v.get(k, default)] *)
Definition get (v : json) (k : pystr) (default : json) : attempt json :=
  match v with
  | JObj members =>
    Done (match dict_get k members with Some x => x | None => default end)
  | _ => Failed AttributeError
  end.

(** [len(v)] *)
Definition len (v : json) : attempt Z :=
  match v with
  | JStr s => Done (Z.of_nat (List.length s))
  | JArr items => Done (Z.of_nat (List.length items))
  | JObj members => Done (Z.of_nat (List.length members))
  | _ => Failed TypeError
  end.

(** What [for x in v] runs over. *)
Definition iter (v : json) : attempt (list json) :=
  match v with
  | JArr items => Done items
  | JObj members => Done (map (fun kv => JStr (fst kv)) members)
  | JStr t => Done (map (fun c => JStr [c]) t)
  | _ => Failed TypeError
  end.

(** [repo.split('/')[-1]] together with [repo] as a string: only a [str]
    has the method. *)
Definition split_repo (repo : json) : attempt (pystr * pystr) :=
  match repo with
  | JStr s => Done (s, last (split_on 47 s) [])
  | _ => Failed AttributeError
  end.

Section Handler.

Variable W : Type.
Variable host : Host W.

(** A computation of the uploader. *)
Definition U (A : Type) : Type := run W -> attempt A * run W.

Definition pure {A} (a : A) : U A := fun st => (Done a, st).

Definition fail {A} (e : error) : U A := fun st => (Failed e, st).

Definition lift {A} (r : attempt A) : U A := fun st => (r, st).

Definition and_then {A B} (m : U A) (k : A -> U B) : U B :=
  fun st =>
    match m st with
    | (Done a, st') => k a st'
    | (Failed e, st') => (Failed e, st')
    end.

Declare Scope uploader_scope.
Notation "x <- m ;; k" := (and_then m (fun x => k))
  (at level 61, m at next level, right associativity) : uploader_scope.
Notation "m ;; k" := (and_then m (fun _ => k))
  (at level 61, right associativity) : uploader_scope.
Local Open Scope uploader_scope.

(** [try: body  except ...: handler] *)
Definition attempt_except {A} (body : U A) (handler : error -> U A) : U A :=
  fun st =>
    match body st with
    | (Failed e, st') => handler e st'
    | r => r
    end.

(** [try: body  finally: cleanup]: the clause runs whatever the body
    did; when it raises, its exception replaces the outcome of the body. *)
Definition attempt_finally {A} (body : U A) (cleanup : U unit) : U A :=
  fun st =>
    match body st with
    | (r, st') =>
      match cleanup st' with
      | (Failed e, st'') => (Failed e, st'')
      | (Done _, st'') => (r, st'')
      end
    end.

(** [for x in xs: body] *)
Fixpoint each {A} (xs : list A) (body : A -> U unit) : U unit :=
  match xs with
  | [] => pure tt
  | x :: xs' => body x ;; each xs' body
  end.

Definition is_done {A} (r : attempt A) : bool :=
  match r with
  | Done _ => true
  | Failed _ => false
  end.

(** A call on the outside that may raise; it is recorded with its success. *)
Definition ask {A} (c : call) (operation : W -> attempt A * W) : U A :=
  fun st =>
    match operation (outside st) with
    | (r, w) =>
      (r, {| outside := w;
             calls := calls st ++ [(c, is_done r)];
             records := records st;
             temp_dir := temp_dir st |})
    end.

(** [os.path.exists(path)], recorded with its answer. *)
Definition ask_exists (path : pystr) : U bool :=
  fun st =>
    let answer := path_exists host path (outside st) in
    (Done answer,
     {| outside := outside st;
        calls := calls st ++ [(PathExists path, answer)];
        records := records st;
        temp_dir := temp_dir st |}).

Definition logging (l : level) (head : string) : U unit :=
  fun st =>
    (Done tt,
     {| outside := outside st;
        calls := calls st;
        records := records st ++ [(l, head)];
        temp_dir := temp_dir st |}).

Definition set_temp_dir (o : option pystr) : U unit :=
  fun st =>
    (Done tt,
     {| outside := outside st;
        calls := calls st;
        records := records st;
        temp_dir := o |}).

Definition get_temp_dir : U (option pystr) :=
  fun st => (Done (temp_dir st), st).

(** The handler of [CalledProcessError] in [clone_repository] and in
    [sync_to_s3]: log and raise again. *)
Definition log_and_reraise {A} (head : string) (e : error) : U A :=
  match e with
  | CalledProcessError _ => logging ERROR head ;; fail e
  | _ => fail e
  end.

(** [clone_repository], lines 79-102. *)
Definition clone_repository (repo : json) (temp : pystr) : U unit :=
  attempt_except
    (parts <- lift (split_repo repo) ;;
     let repo_name := snd parts in
     let repo_path := path_join temp repo_name in
     let repo_url := py "https://github.com/" ++ fst parts ++ py ".git" in
     logging INFO "Cloning " ;;
     ask (GitClone repo_url repo_path) (git_clone host repo_url repo_path) ;;
     logging INFO "Cloned " ;;
     ask (Cleanup repo_path) (cleanup_on_disk host repo_path))
    (log_and_reraise "Failed to clone ").

(** [sync_to_s3], lines 131-155. *)
Definition sync_to_s3 (local_dir bucket : pystr) : U pystr :=
  attempt_except
    (let destination := py "s3://" ++ bucket ++ py "/" in
     logging INFO "Running s3 sync with delete" ;;
     stdout <- ask (S3Sync local_dir destination)
                   (aws_s3_sync host local_dir destination) ;;
     logging INFO "Sync completed: " ;;
     pure stdout)
    (log_and_reraise "S3 sync failed: ").

(** The reply of line 52. *)
Definition missing_input : reply :=
  {| statusCode := 400;
     message := py "Missing repositories or bucket";
     sync_output := None |}.

(** The [try] block of [lambda_handler], lines 48-69. *)
Definition handler_body (event : json) : U reply :=
  repos <- lift (get event (py "repositories") (JArr [])) ;;
  let bucket := environ_bucket host in
  if negb (truthy repos) || negb (truthy_opt bucket) then pure missing_input
  else
    count <- lift (len repos) ;;
    logging INFO "Processing " ;;
    temp <- ask Mkdtemp (mkdtemp host) ;;
    set_temp_dir (Some temp) ;;
    items <- lift (iter repos) ;;
    each items (fun repo => clone_repository repo temp) ;;
    stdout <- sync_to_s3 temp (match bucket with Some b => b | None => [] end) ;;
    pure {| statusCode := 200;
            message := py "Successfully synced " ++ str_of_int count
                       ++ py " repositories";
            sync_output := Some stdout |}.

(** The [except Exception] clause, lines 71-73: what is not an
    [Exception] is not caught. *)
Definition on_error (e : error) : U reply :=
  match e with
  | BaseException _ => fail e
  | _ =>
    logging ERROR "Error: " ;;
    pure {| statusCode := 500;
            message := py "Error: " ++ error_text host e;
            sync_output := None |}
  end.

(** The [finally] clause, lines 74-76. *)
Definition remove_temp_dir : U unit :=
  temp <- get_temp_dir ;;
  match temp with
  | Some (c :: s) =>
    there <- ask_exists (c :: s) ;;
    if there then ask (Rmtree (c :: s)) (rmtree host (c :: s)) else pure tt
  | _ => pure tt
  end.

(** [lambda_handler], lines 44-76. *)
Definition lambda_handler (event : json) : U reply :=
  set_temp_dir None ;;
  attempt_finally (attempt_except (handler_body event) on_error)
                  remove_temp_dir.

End Handler.

(** The state in which an invocation starts. *)
Definition fresh {W} (w : W) : run W :=
  {| outside := w; calls := []; records := []; temp_dir := None |}.

Definition is_sync (entry : call * bool) : bool :=
  match entry with
  | (S3Sync _ _, _) => true
  | _ => false
  end.

Definition successful_sync (entry : call * bool) : bool :=
  is_sync entry && snd entry.

(** How a failure in the [try] block of the handler ends: in a reply of
    status 500, or in the exception itself when it is not an
    [Exception]. *)
Definition failed_outcome (r : attempt reply) : Prop :=
  match r with
  | Done rep => statusCode rep = 500%Z
  | Failed e => is_Exception e = false
  end.

Definition succeeded (c : call) : call * bool := (c, true).

(** The calls that [clone_repository] makes for one repository when
    nothing fails. *)
Definition clone_calls (temp : pystr) (repo : json) : list call :=
  match repo with
  | JStr s =>
    let repo_path := path_join temp (last (split_on 47 s) []) in
    [GitClone (py "https://github.com/" ++ s ++ py ".git") repo_path;
     Cleanup repo_path]
  | _ => []
  end.

(** A host for the examples: the state of the outside counts the clones
    made; the clone of [broken/repo] fails, every other call succeeds. *)
Definition sample_host : Host nat :=
  {| environ_bucket := Some (py "oscar-docs");
     mkdtemp := fun n => (Done (py "/tmp/tmpab12"), n);
     git_clone := fun url path n =>
       if pystr_eqb url (py "https://github.com/broken/repo.git")
       then (Failed (CalledProcessError (py "fatal: repository not found")), n)
       else (Done tt, S n);
     cleanup_on_disk := fun path n => (Done tt, n);
     aws_s3_sync := fun dir destination n => (Done (py "upload: README.md"), n);
     path_exists := fun path n => true;
     rmtree := fun path n => (Done tt, n);
     error_text := fun e => py "Command returned non-zero exit status 128." |}.

Definition repositories (names : list pystr) : json :=
  JObj [(py "repositories", JArr (map JStr names))].

(** The same host, interrupted from the keyboard during every clone. *)
Definition interrupted_host : Host nat :=
  {| environ_bucket := environ_bucket sample_host;
     mkdtemp := mkdtemp sample_host;
     git_clone := fun url path n =>
       (Failed (BaseException "KeyboardInterrupt"), n);
     cleanup_on_disk := cleanup_on_disk sample_host;
     aws_s3_sync := aws_s3_sync sample_host;
     path_exists := path_exists sample_host;
     rmtree := rmtree sample_host;
     error_text := error_text sample_host |}.

End Uploader.

(** * Properties *)

Arguments py : simpl never.
Arguments strip : simpl never.
Arguments str_of_int : simpl never.

(** ** The monad *)

Lemma bind_Return A B (m : M A) (k : A -> M B) st a st1 :
  m st = (Return a, st1) -> bind m k st = k a st1.
Proof. intros H. unfold bind. now rewrite H. Qed.

Lemma bind_Raise A B (m : M A) (k : A -> M B) st e st1 :
  m st = (Raise e, st1) -> bind m k st = (Raise e, st1).
Proof. intros H. unfold bind. now rewrite H. Qed.

Lemma bind_returns A B (m : M A) (k : A -> M B) st b st2 :
  bind m k st = (Return b, st2) ->
  exists a st1, m st = (Return a, st1) /\ k a st1 = (Return b, st2).
Proof.
  unfold bind. destruct (m st) as [[e | a] st1]; intros H.
  - discriminate.
  - now exists a, st1.
Qed.

Lemma bind_cases A B (m : M A) (k : A -> M B) st :
  (exists e st1, m st = (Raise e, st1) /\ bind m k st = (Raise e, st1)) \/
  (exists a st1, m st = (Return a, st1) /\ bind m k st = k a st1).
Proof.
  unfold bind. destruct (m st) as [[e | a] st1].
  - left. now exists e, st1.
  - right. now exists a, st1.
Qed.

Lemma for_each_app A (body : A -> M unit) xs ys st :
  for_each (xs ++ ys) body st =
  match for_each xs body st with
  | (Return _, st1) => for_each ys body st1
  | (Raise e, st1) => (Raise e, st1)
  end.
Proof.
  revert st. induction xs as [| x xs IH]; intros st; simpl.
  - reflexivity.
  - unfold bind. destruct (body x st) as [[e | []] st1].
    + reflexivity.
    + apply IH.
Qed.

(** Peel one [bind] off a hypothesis that says a computation returned. *)
Ltac returned H :=
  let a := fresh "a" in
  let s := fresh "st" in
  let H1 := fresh "Hrun" in
  apply bind_returns in H; destruct H as (a & s & H1 & H).

(** Run a first step that neither raises nor touches the state. *)
Ltac pure_step H :=
  unfold bind at 1 in H; cbn [ret raise py_get py_iter] in H.

Unset Implicit Arguments.

(** Case analysis on the innermost [match] of the goal. *)
Ltac split_goal :=
  match goal with
  | |- context [match ?x with _ => _ end] =>
    lazymatch x with
    | context [match _ with _ => _ end] => fail
    | _ => destruct x
    end
  end.

(** ** The scan of a parsed document *)

(** On a content item that lets the scan return, the code does what the
    specification reads: the text becomes the content of the item when
    the item is a message to the user, and is left alone otherwise. *)
Lemma scan_content_item_returns item st st' :
  scan_content_item item st = (Return tt, st') ->
  response_text st' =
    match user_message item with
    | Some c => c
    | None => response_text st
    end /\
  returned_session_id st' = returned_session_id st /\ ticks st' = ticks st.
Proof.
  unfold scan_content_item, user_message, field.
  destruct item as [| b | z | f | s | items | members]; cbn; try discriminate.
  - unfold bind; cbn.
    destruct (is_substring _ s); cbn; intros H; inversion H; auto.
  - unfold bind; cbn.
    destruct (existsb _ items); cbn; intros H; inversion H; auto.
  - unfold bind; cbn.
    destruct (dict_get (py "toolUse") members) as [tool_use |]; cbn;
      [| intros H; inversion H; auto].
    destruct tool_use as [| b | z | f | s | items | m2]; cbn;
      try (intros H; inversion H; auto; fail).
    + destruct b; cbn; intros H; inversion H; auto.
    + destruct (z =? 0)%Z; cbn; intros H; inversion H; auto.
    + destruct f; cbn; intros H; inversion H; auto.
    + destruct s; cbn; intros H; inversion H; auto.
    + destruct items; cbn; intros H; inversion H; auto.
    + destruct m2 as [| kv m2']; [cbn; intros H; inversion H; auto |].
      cbn [truthy when].
      remember (kv :: m2') as m eqn:Em; clear Em.
      destruct (dict_get (py "name") m) as [name |]; cbn;
        [| intros H; inversion H; auto].
      destruct (eq_str name sendMessage) eqn:En; cbn.
      2:{ intros H; inversion H. repeat split_goal; auto. }
      destruct (dict_get (py "input") m) as [input |]; cbn;
        [| intros H; inversion H; auto].
      destruct input as [| b | z | f | s | items | m3]; cbn; try discriminate.
      destruct (dict_get (py "recipient") m3) as [recipient |]; cbn;
        [| intros H; inversion H; auto].
      destruct (eq_str recipient (py "User")) eqn:Er; cbn.
      2:{ intros H; inversion H. repeat split_goal; auto. }
      destruct (dict_get (py "content") m3) as [content |]; cbn;
        [| intros H; inversion H; auto].
      destruct (truthy content) eqn:Et; cbn;
        [| intros H; inversion H; auto].
      destruct content; cbn; try discriminate; intros H; inversion H; auto.
Qed.

(** The last element of a list, step by step. *)
Lemma last_of_cons A (x : A) l :
  last_of (x :: l) = match last_of l with Some y => Some y | None => Some x end.
Proof.
  revert x. induction l as [| y l IH]; intros x; [reflexivity |].
  change (last_of (x :: y :: l)) with (last_of (y :: l)).
  rewrite (IH y). now destruct (last_of l).
Qed.

Lemma last_of_app A (l1 l2 : list A) :
  last_of (l1 ++ l2) =
  match last_of l2 with Some y => Some y | None => last_of l1 end.
Proof.
  induction l1 as [| x l1 IH].
  - cbn. now destruct (last_of l2).
  - rewrite <- app_comm_cons, !last_of_cons, IH. now destruct (last_of l2).
Qed.

Lemma last_of_None A (l : list A) : last_of l = None -> l = [].
Proof. destruct l; [reflexivity |]. rewrite last_of_cons. now destruct (last_of l). Qed.

(** The loop over the content items leaves the last message in the
    text. *)
Lemma scan_items_returns items st st' :
  for_each items scan_content_item st = (Return tt, st') ->
  response_text st' = last_or (collect user_message items) (response_text st) /\
  returned_session_id st' = returned_session_id st /\ ticks st' = ticks st.
Proof.
  revert st. induction items as [| x items IH]; intros st H.
  - inversion H. auto.
  - cbn [for_each] in H. returned H. destruct a.
    apply scan_content_item_returns in Hrun. destruct Hrun as (Ht & Hs & Hk).
    apply IH in H. destruct H as (Ht' & Hs' & Hk').
    split; [| split; congruence].
    rewrite Ht'. unfold last_or. cbn [collect].
    destruct (user_message x) as [c |].
    + rewrite last_of_cons. now destruct (last_of _).
    + rewrite Ht. reflexivity.
Qed.

(** Nothing in the scan of an item raises [JSONDecodeError]. *)
Lemma scan_content_item_error item st e st' :
  scan_content_item item st = (Raise e, st') -> e <> JSONDecodeError.
Proof.
  unfold scan_content_item, bind, when, py_in, py_get, py_slice, raise, ret,
    set_response_text, logger.
  intros H.
  repeat match type of H with
  | context [match ?x with _ => _ end] =>
    lazymatch x with
    | context [match _ with _ => _ end] => fail
    | _ => destruct x
    end
  | context [if ?x then _ else _] => destruct x
  end; inversion H; discriminate.
Qed.

Lemma scan_items_error items st e st' :
  for_each items scan_content_item st = (Raise e, st') -> e <> JSONDecodeError.
Proof.
  revert st. induction items as [| x items IH]; intros st H.
  - discriminate.
  - cbn [for_each] in H.
    destruct (bind_cases (scan_content_item x) (fun _ => for_each items scan_content_item) st)
      as [(e1 & s1 & H1 & H2) | ([] & s1 & H1 & H2)]; rewrite H2 in H.
    + inversion H; subst. eapply scan_content_item_error; eauto.
    + eapply IH; eauto.
Qed.

(** Strings are no messages: a [dict] or a [str] in the place of the
    content array yields none. *)
Lemma collect_keys_nil A (f : A -> pystr) (l : list A) :
  collect user_message (map (fun x => JStr (f x)) l) = [].
Proof. induction l; cbn; auto. Qed.

Section Reading.

Variable json_loads : pystr -> outcome json.

(** A scan that returns has parsed the payload and left in the text the
    last message among the content items of the document. *)
Lemma scan_raw_response_returns raw st st' :
  scan_raw_response json_loads raw st = (Return tt, st') ->
  exists parsed,
    json_loads raw = Return parsed /\
    response_text st' =
      last_or (collect user_message (content_items parsed)) (response_text st) /\
    returned_session_id st' = returned_session_id st /\ ticks st' = ticks st.
Proof.
  unfold scan_raw_response, loads. intros H. unfold bind at 1 in H.
  destruct (json_loads raw) as [e | parsed]; [discriminate |].
  cbv beta iota in H.
  exists parsed. split; [reflexivity |].
  unfold content_items, field.
  destruct parsed as [| | | | | | m]; try discriminate.
  pure_step H.
  destruct (dict_get (py "output") m) as [[| | | | | | m1] |]; try discriminate.
  - pure_step H.
    destruct (dict_get (py "message") m1) as [[| | | | | | m2] |]; try discriminate.
    + pure_step H.
      destruct (dict_get (py "content") m2) as [[| | | | s | items | m3] |];
        try discriminate; pure_step H;
        apply scan_items_returns in H;
        rewrite ?collect_keys_nil in H; exact H.
    + cbn in H. inversion H. auto.
  - cbn in H. inversion H. auto.
Qed.

(** Only [json.loads] raises [JSONDecodeError], before any assignment. *)
Lemma scan_raw_response_decode_error raw st st' :
  scan_raw_response json_loads raw st = (Raise JSONDecodeError, st') ->
  json_loads raw = Raise JSONDecodeError /\ st' = st.
Proof.
  unfold scan_raw_response, loads. intros H. unfold bind at 1 in H.
  destruct (json_loads raw) as [e | parsed].
  - inversion H. auto.
  - exfalso. cbv beta iota in H.
    destruct parsed as [| | | | | | m]; try discriminate.
    pure_step H.
    destruct (dict_get (py "output") m) as [[| | | | | | m1] |]; try discriminate.
    pure_step H.
    destruct (dict_get (py "message") m1) as [[| | | | | | m2] |]; try discriminate.
    pure_step H.
    destruct (dict_get (py "content") m2) as [[| | | | s | items | m3] |];
      try discriminate; pure_step H;
      apply scan_items_error in H; congruence.
Qed.

(** The nested tests of [handle_trace] amount to reading the payload. *)
Lemma handle_trace_unfold ev :
  handle_trace json_loads ev =
  match event_trace ev with
  | Some _ =>
    logger INFO "TRACE EVENT: " ;;
    match raw_payload ev with
    | Some raw => try_except (scan_raw_response json_loads raw) on_parse_error
    | None => ret tt
    end
  | None => ret tt
  end.
Proof.
  unfold handle_trace, raw_payload.
  destruct (event_trace ev) as [ [ [ [ [ [ [ [ [ [ [ c | ] ] | ] ] | ] ] | ] ] | ] ] | ]; reflexivity.
Qed.

(** The trace half of the loop body: the text becomes the last message
    of the event; the session id and the clock are untouched. *)
Lemma handle_trace_returns ev st st' :
  handle_trace json_loads ev st = (Return tt, st') ->
  response_text st' =
    last_or (event_messages json_loads ev) (response_text st) /\
  returned_session_id st' = returned_session_id st /\ ticks st' = ticks st.
Proof.
  rewrite handle_trace_unfold. unfold event_messages.
  destruct (event_trace ev) as [tr |] eqn:Etr.
  2:{ intros H. inversion H; subst.
      assert (raw_payload ev = None) as -> by (unfold raw_payload; now rewrite Etr).
      auto. }
  intros H. unfold bind at 1 in H. cbn [logger] in H.
  destruct (raw_payload ev) as [raw |].
  2:{ inversion H; subst. auto. }
  unfold try_except in H.
  match type of H with
  | context [scan_raw_response _ _ ?s] =>
    destruct (scan_raw_response json_loads raw s) as [[e | []] st1] eqn:Hscan
  end.
  - destruct e; try discriminate.
    apply scan_raw_response_decode_error in Hscan. destruct Hscan as [-> ->].
    inversion H; subst. auto.
  - inversion H; subst.
    apply scan_raw_response_returns in Hscan.
    destruct Hscan as (parsed & -> & Ht & Hs & Hk). auto.
Qed.

(** The chunk half of the loop body keeps a text that is not empty. *)
Lemma handle_chunk_returns ev st st' :
  handle_chunk ev st = (Return tt, st') ->
  (truthy (response_text st) = true -> response_text st' = response_text st) /\
  ticks st' = ticks st.
Proof.
  unfold handle_chunk. destruct (event_chunk ev) as [[bs sid] |].
  2:{ intros H. inversion H. auto. }
  cbn [chunk_bytes chunk_sessionId]. intros H.
  unfold bind at 1 in H. cbn [logger] in H.
  unfold bind at 1 in H. cbn [logger] in H.
  returned H. destruct a.
  assert (Hsid : response_text st' = response_text st0 /\ ticks st' = ticks st0).
  { destruct sid as [s |]; cbn in H; inversion H; auto. }
  destruct Hsid as [-> ->]. clear H.
  destruct bs as [bs |]; [| inversion Hrun; auto].
  unfold decode in Hrun.
  destruct (bytes_decode bs) as [chunk_text |]; [| discriminate].
  unfold bind at 1 in Hrun. cbn [ret] in Hrun.
  unfold bind at 1 in Hrun. cbn [get_response_text] in Hrun.
  cbn [response_text] in Hrun.
  destruct (truthy (response_text st)) eqn:Et; cbn [negb when] in Hrun.
  - cbn in Hrun. inversion Hrun; subst. auto.
  - split; [discriminate |].
    destruct (response_text st); cbn in Hrun; try discriminate;
      inversion Hrun; reflexivity.
Qed.

(** The chunk half of the loop body records the session id of the chunk. *)
Lemma handle_chunk_session ev st st' :
  handle_chunk ev st = (Return tt, st') ->
  returned_session_id st' =
    match event_chunk ev with
    | Some {| chunk_sessionId := Some sid |} => Some sid
    | _ => returned_session_id st
    end.
Proof.
  unfold handle_chunk. destruct (event_chunk ev) as [[bs sid] |].
  2:{ intros H. inversion H. auto. }
  cbn [chunk_bytes chunk_sessionId]. intros H.
  unfold bind at 1 in H. cbn [logger] in H.
  unfold bind at 1 in H. cbn [logger] in H.
  returned H. destruct a.
  assert (Hs : returned_session_id st0 = returned_session_id st).
  { destruct bs as [bs |]; [| inversion Hrun; auto].
    unfold decode in Hrun.
    destruct (bytes_decode bs) as [chunk_text |]; [| discriminate].
    unfold bind at 1 in Hrun. cbn [ret] in Hrun.
    unfold bind at 1 in Hrun. cbn [get_response_text] in Hrun.
    destruct (truthy _); cbn [negb when] in Hrun.
    - cbn in Hrun. inversion Hrun; subst. auto.
    - cbn [response_text] in Hrun.
      destruct (response_text st); cbn in Hrun; try discriminate;
        inversion Hrun; reflexivity. }
  destruct sid as [s |]; cbn in H; inversion H; subst; cbn; auto.
Qed.

End Reading.

(** ** What a computation may depend on

    Every step of the loop and of the lines after it is [tame]: it only
    adds to the log, and two runs from states with the same locals and
    clock end alike. *)

Lemma same_locals_refl st : same_locals st st.
Proof. now repeat split. Qed.

Lemma tame_ret A (a : A) : tame (ret a).
Proof. split; [intros st; apply incl_refl | intros a0 b H; now split]. Qed.

Lemma tame_raise A e : tame (@raise A e).
Proof. split; [intros st; apply incl_refl | intros a0 b H; now split]. Qed.

Lemma related_bind A B (m1 m2 : M A) (k : A -> M B) a b :
  related (m1 a) (m2 b) -> (forall x, tame (k x)) ->
  related (bind m1 k a) (bind m2 k b).
Proof.
  unfold related, bind. intros [Hr Hs] Hk.
  destruct (m1 a) as [[e1 | x1] a1], (m2 b) as [[e2 | x2] b1];
    cbn in Hr, Hs; try discriminate.
  - inversion Hr; subst. now split.
  - inversion Hr; subst. now apply Hk.
Qed.

Lemma tame_bind A B (m : M A) (k : A -> M B) :
  tame m -> (forall x, tame (k x)) -> tame (bind m k).
Proof.
  intros Hm Hk. split.
  - intros st. unfold bind. destruct Hm as [Hm _]. specialize (Hm st).
    destruct (m st) as [[e | x] st1]; cbn in *; [exact Hm |].
    eapply incl_tran; [exact Hm | apply Hk].
  - intros a b H. apply related_bind; [now apply Hm | exact Hk].
Qed.

Lemma tame_try A (m : M A) (h : exn -> M A) :
  tame m -> (forall e, tame (h e)) -> tame (try_except m h).
Proof.
  intros Hm Hh. split.
  - intros st. unfold try_except. destruct Hm as [Hm _]. specialize (Hm st).
    destruct (m st) as [[e | x] st1]; cbn in *; [| exact Hm].
    eapply incl_tran; [exact Hm | apply Hh].
  - intros a b H. destruct Hm as [_ Hm]. specialize (Hm a b H).
    unfold related, try_except in *. destruct Hm as [Hr Hs].
    destruct (m a) as [[e1 | x1] a1], (m b) as [[e2 | x2] b1];
      cbn in Hr, Hs; try discriminate.
    + inversion Hr; subst. now apply Hh.
    + inversion Hr; subst. now split.
Qed.

Lemma tame_when b (m : M unit) : tame m -> tame (when b m).
Proof. destruct b; [auto | intros _; apply tame_ret]. Qed.

Lemma tame_for_each A (body : A -> M unit) xs :
  (forall x, tame (body x)) -> tame (for_each xs body).
Proof.
  intros H. induction xs as [| x xs IH]; cbn [for_each].
  - apply tame_ret.
  - apply tame_bind; auto.
Qed.

Lemma tame_step (f : state -> state) :
  (forall st, incl (log st) (log (f st))) ->
  (forall a b, same_locals a b -> same_locals (f a) (f b)) ->
  tame (fun st => (Return tt, f st)).
Proof. intros H1 H2. split; [exact H1 | intros a b H; split; [reflexivity | now apply H2]]. Qed.

Lemma tame_logger l head : tame (logger l head).
Proof.
  apply tame_step.
  - intros st. cbn. apply incl_appl, incl_refl.
  - intros a b (H1 & H2 & H3). now repeat split.
Qed.

Lemma tame_set_response_text v : tame (set_response_text v).
Proof.
  apply tame_step.
  - intros st. apply incl_refl.
  - intros a b (H1 & H2 & H3). now repeat split.
Qed.

Lemma tame_set_returned_session_id o : tame (set_returned_session_id o).
Proof.
  apply tame_step.
  - intros st. apply incl_refl.
  - intros a b (H1 & H2 & H3). now repeat split.
Qed.

Lemma tame_append_event ev : tame (append_event ev).
Proof.
  apply tame_step.
  - intros st. apply incl_refl.
  - intros a b (H1 & H2 & H3). now repeat split.
Qed.

Lemma tame_clear_all_events : tame clear_all_events.
Proof.
  apply tame_step.
  - intros st. apply incl_refl.
  - intros a b (H1 & H2 & H3). now repeat split.
Qed.

Lemma tame_get_response_text : tame get_response_text.
Proof.
  split; [intros st; apply incl_refl |].
  intros a b H. split; [cbn; f_equal; apply H | exact H].
Qed.

Lemma tame_get_returned_session_id : tame get_returned_session_id.
Proof.
  split; [intros st; apply incl_refl |].
  intros a b H. split; [cbn; f_equal; apply H | exact H].
Qed.

Lemma tame_py_get v k d : tame (py_get v k d).
Proof. destruct v; cbn; (apply tame_ret || apply tame_raise). Qed.

Lemma tame_py_in s v : tame (py_in s v).
Proof. destruct v; cbn; (apply tame_ret || apply tame_raise). Qed.

Lemma tame_py_iter v : tame (py_iter v).
Proof. destruct v; cbn; (apply tame_ret || apply tame_raise). Qed.

Lemma tame_py_slice v : tame (py_slice v).
Proof. destruct v; cbn; (apply tame_ret || apply tame_raise). Qed.

Lemma tame_py_len v : tame (py_len v).
Proof. destruct v; cbn; (apply tame_ret || apply tame_raise). Qed.

Lemma tame_py_iadd v s : tame (py_iadd v s).
Proof. destruct v; cbn; (apply tame_ret || apply tame_raise). Qed.

Lemma tame_py_strip v : tame (py_strip v).
Proof. destruct v; cbn; (apply tame_ret || apply tame_raise). Qed.

Lemma tame_decode bs : tame (decode bs).
Proof. unfold decode. destruct (bytes_decode bs); (apply tame_ret || apply tame_raise). Qed.

Create HintDb tame.
#[local] Hint Resolve tame_ret tame_raise tame_logger tame_set_response_text
  tame_set_returned_session_id tame_append_event tame_clear_all_events
  tame_get_response_text tame_get_returned_session_id tame_py_get tame_py_in
  tame_py_iter tame_py_slice tame_py_len tame_py_iadd tame_py_strip
  tame_decode : tame.

Ltac tame_tac :=
  repeat first
    [ solve [auto with tame]
    | apply tame_bind; [| intros ?]
    | apply tame_when
    | apply tame_try; [| intros ?]
    | apply tame_for_each; intros ?
    | match goal with
      | |- tame (match ?x with _ => _ end) => destruct x
      | |- tame (if ?x then _ else _) => destruct x
      end ].

Lemma tame_scan_content_item item : tame (scan_content_item item).
Proof. unfold scan_content_item. tame_tac. Qed.

Section Tame.
Variable json_loads : pystr -> outcome json.
Variable clock : nat -> Z.

Lemma tame_loads raw : tame (loads json_loads raw).
Proof.
  unfold loads. destruct (json_loads raw) as [e | parsed].
  - exact (tame_raise _ e).
  - exact (tame_ret _ parsed).
Qed.

Lemma tame_time_now : tame (time_now clock).
Proof.
  split.
  - intros st. apply incl_refl.
  - intros a b (H1 & H2 & H3). split; cbn; [now rewrite H3 |].
    repeat split; cbn; congruence.
Qed.

Lemma tame_handle_trace ev : tame (handle_trace json_loads ev).
Proof.
  rewrite handle_trace_unfold. unfold scan_raw_response, on_parse_error.
  pose proof tame_loads. pose proof tame_scan_content_item. tame_tac.
Qed.

Lemma tame_handle_chunk ev : tame (handle_chunk ev).
Proof. unfold handle_chunk. tame_tac. Qed.

Lemma tame_handle_event ev : tame (handle_event json_loads ev).
Proof.
  unfold handle_event. pose proof tame_handle_trace. pose proof tame_handle_chunk.
  tame_tac.
Qed.

Lemma tame_resolve_session_id resp sid : tame (resolve_session_id clock resp sid).
Proof. unfold resolve_session_id, new_session_id. pose proof tame_time_now. tame_tac. Qed.

Lemma tame_conclude resp sid : tame (conclude clock resp sid).
Proof. unfold conclude. pose proof tame_resolve_session_id. tame_tac. Qed.

End Tame.

(** ** From [invoke_agent] to the [try] block *)

Lemma strip_empty : strip (py "") = py "".
Proof. reflexivity. Qed.

Lemma try_on_failure_result A (m : M A) st :
  result (try_except m on_failure st) =
  match result (m st) with
  | Return v => Return v
  | Raise e => Raise (reraised e)
  end.
Proof.
  unfold try_except. destruct (m st) as [[e | v] st1]; [| reflexivity].
  destruct e as [| | | | | [[[[c |] [msg |]] |]] | name | name]; reflexivity.
Qed.

Lemma try_on_failure_final A (m : M A) st v :
  result (m st) = Return v ->
  final (try_except m on_failure st) = final (m st).
Proof.
  unfold try_except. destruct (m st) as [[e | w] st1]; [discriminate | reflexivity].
Qed.

Section Calls.

Variable json_loads : pystr -> outcome json.
Variable clock : nat -> Z.

Lemma create_agent_request_run self query privilege session_id st :
  exists req st1,
    create_agent_request clock self query privilege session_id st = (Return req, st1) /\
    ticks st1 = (if truthy_opt session_id then ticks st else S (ticks st)) /\
    incl (log st) (log st1) /\
    agentId req =
      (if privilege then privileged_agent_id self else limited_agent_id self) /\
    agentAliasId req =
      (if privilege then privileged_agent_alias_id self
       else limited_agent_alias_id self).
Proof.
  unfold create_agent_request, new_session_id.
  destruct session_id as [[| c s] |]; cbn;
    (do 2 eexists; split; [reflexivity |]);
    cbn; repeat split; auto using incl_refl.
Qed.

Lemma invoke_agent_unfold self query privilege session_id st req :
  result (create_agent_request clock self query privilege session_id st) = Return req ->
  invoke_agent json_loads clock self query privilege session_id st =
  try_except
    (resp <- call_client self req ;;
     process_response json_loads clock resp session_id)
    on_failure (entered session_id st).
Proof.
  intros Hreq.
  destruct session_id as [[| c s] |]; cbn in Hreq; inversion Hreq; reflexivity.
Qed.

(** Once the client has answered, the call is the [try] block run on the
    answer. *)
Lemma invoke_agent_answered self query privilege session_id st req resp :
  result (create_agent_request clock self query privilege session_id st) = Return req ->
  client self req = Return resp ->
  invoke_agent json_loads clock self query privilege session_id st =
  try_except (process_response json_loads clock resp session_id) on_failure
    (entered session_id st).
Proof.
  intros Hreq Hclient. rewrite (invoke_agent_unfold _ _ _ _ _ _ Hreq).
  unfold try_except, bind at 1, call_client. now rewrite Hclient.
Qed.

(** When the client raises, the handlers run at once. *)
Lemma invoke_agent_refused self query privilege session_id st req e :
  result (create_agent_request clock self query privilege session_id st) = Return req ->
  client self req = Raise e ->
  invoke_agent json_loads clock self query privilege session_id st =
  on_failure e (entered session_id st).
Proof.
  intros Hreq Hclient. rewrite (invoke_agent_unfold _ _ _ _ _ _ Hreq).
  unfold try_except, bind at 1, call_client. now rewrite Hclient.
Qed.

(** With a stream in the envelope, the first part of the [try] block is
    the loop. *)
Lemma consume_run resp events st :
  completion resp = Some events ->
  consume json_loads resp st =
  for_each events (handle_event json_loads) (looping st).
Proof. intros H. unfold consume. rewrite H. reflexivity. Qed.

(** Settling the session id never raises and leaves the text alone. *)
Lemma resolve_session_id_run resp session_id st :
  exists st1,
    resolve_session_id clock resp session_id st = (Return tt, st1) /\
    response_text st1 = response_text st /\
    returned_session_id st1 =
      match sessionId resp with
      | Some top => Some top
      | None =>
        if negb (truthy_opt (returned_session_id st)) && truthy_opt session_id
        then session_id
        else Some (py "session-" ++ str_of_int (clock (ticks st)))
      end.
Proof.
  unfold resolve_session_id, new_session_id.
  destruct (sessionId resp) as [top |].
  - eexists. split; [reflexivity |]. split; reflexivity.
  - unfold bind at 1. cbn [get_returned_session_id].
    destruct (negb (truthy_opt (returned_session_id st)) && truthy_opt session_id);
      eexists; (split; [reflexivity |]); split; reflexivity.
Qed.

(** What the last lines return, in terms of the locals the loop left. *)
Lemma conclude_result resp session_id st :
  result (conclude clock resp session_id st) =
  match response_text st with
  | JStr s =>
    Return (strip s,
            match sessionId resp with
            | Some top => Some top
            | None =>
              if negb (truthy_opt (returned_session_id st)) && truthy_opt session_id
              then session_id
              else Some (py "session-" ++ str_of_int (clock (ticks st)))
            end)
  | JArr _ => Raise AttributeError
  | JObj _ => Raise AttributeError
  | _ => Raise TypeError
  end.
Proof.
  unfold conclude. unfold bind at 1. cbn [logger].
  destruct (resolve_session_id_run resp session_id
    {| response_text := response_text st;
       returned_session_id := returned_session_id st;
       all_events := all_events st;
       log := log st ++ [(INFO, "Total events processed: "%string)];
       ticks := ticks st |}) as (st1 & Hrun & Htext & Hsid).
  cbn [response_text returned_session_id ticks] in Htext, Hsid.
  rewrite (bind_Return _ _ _ Hrun).
  unfold bind at 1. cbn [logger]. unfold bind at 1. cbn [get_response_text].
  cbn [response_text]. rewrite Htext.
  destruct (response_text st); cbn; try reflexivity.
  now rewrite Hsid.
Qed.

End Calls.

(** ** Requests and service errors *)

(** C5. The request built for a call carries the privileged agent and
    alias identifiers when [privilege] is true and the limited pair when
    it is false; and it is this request that [invoke_agent] hands to the
    client. *)
Theorem request_routes_by_privilege :
  forall (json_loads : pystr -> outcome json) (clock : nat -> Z)
         (self : BedrockAgentCore) (query : pystr)
         (privilege : bool) (session_id : option pystr) (st : state),
  exists req,
    result (create_agent_request clock self query privilege session_id st)
      = Return req /\
    agentId req =
      (if privilege then privileged_agent_id self else limited_agent_id self) /\
    agentAliasId req =
      (if privilege then privileged_agent_alias_id self
       else limited_agent_alias_id self) /\
    invoke_agent json_loads clock self query privilege session_id st =
    try_except
      (resp <- call_client self req ;;
       process_response json_loads clock resp session_id)
      on_failure (entered session_id st).
Proof.
  intros json_loads clock self query privilege session_id st.
  destruct (create_agent_request_run clock self query privilege session_id st)
    as (req & st1 & Hrun & _ & _ & Hid & Halias).
  exists req. rewrite Hrun. repeat split; auto.
  apply invoke_agent_unfold. now rewrite Hrun.
Qed.

Lemma on_failure_client_error A r code message st :
  Error r = Some {| Code := Some code; Message := Some message |} ->
  @on_failure A (ClientError r) st =
  (Raise (ClientError r),
   {| response_text := response_text st;
      returned_session_id := returned_session_id st;
      all_events := all_events st;
      log := log st ++ [(ERROR, "Bedrock agent error"%string)];
      ticks := ticks st |}).
Proof.
  intros H. unfold on_failure, error_field. rewrite H. reflexivity.
Qed.

(** C6. When the remote call raises a service error that carries a code
    and a message, [invoke_agent] raises that very error: no result is
    returned, and the error is logged on the way. *)
Theorem client_error_propagates :
  forall (json_loads : pystr -> outcome json) (clock : nat -> Z)
         (self : BedrockAgentCore) (query : pystr) (privilege : bool)
         (session_id : option pystr) (st : state)
         (req : agent_request) (r : error_response) (code message : pystr),
    result (create_agent_request clock self query privilege session_id st)
      = Return req ->
    client self req = Raise (ClientError r) ->
    Error r = Some {| Code := Some code; Message := Some message |} ->
    result (invoke_agent json_loads clock self query privilege session_id st)
      = Raise (ClientError r) /\
    In (ERROR, "Bedrock agent error"%string)
       (log (final (invoke_agent json_loads clock self query privilege
                      session_id st))).
Proof.
  intros json_loads clock self query privilege session_id st req r code message
    Hreq Hclient Herror.
  rewrite (invoke_agent_refused json_loads clock self query privilege
             session_id st req _ Hreq Hclient).
  rewrite (on_failure_client_error _ r code message _ Herror).
  split; [reflexivity |]. cbn. apply in_or_app. right. now left.
Qed.

Lemma client_error_propagates_witness :
  result (invoke_agent sample_loads sample_clock
            (sample_core (Raise (ClientError throttled)))
            (py "status of the release") true None start)
    = Raise (ClientError throttled) /\
  In (ERROR, "Bedrock agent error"%string)
     (log (final (invoke_agent sample_loads sample_clock
                    (sample_core (Raise (ClientError throttled)))
                    (py "status of the release") true None start))).
Proof.
  eapply client_error_propagates; reflexivity.
Defined.

(** ** Streams without events *)

Section NoEvents.

Variable json_loads : pystr -> outcome json.
Variable clock : nat -> Z.

Lemma process_response_returned resp session_id st st1 :
  consume json_loads resp st = (Return tt, st1) ->
  process_response json_loads clock resp session_id st =
  conclude clock resp session_id st1.
Proof. intros H. unfold process_response. now rewrite (bind_Return _ _ _ H). Qed.

Lemma process_response_raised resp session_id st e st1 :
  consume json_loads resp st = (Raise e, st1) ->
  process_response json_loads clock resp session_id st = (Raise e, st1).
Proof. intros H. unfold process_response. now rewrite (bind_Raise _ _ _ H). Qed.

(** With no event to process, the text is empty and the session id is
    the envelope's, else the request's, else a fresh one. *)
Lemma no_event_result self query privilege session_id st req resp :
  result (create_agent_request clock self query privilege session_id st) = Return req ->
  client self req = Return resp ->
  completion resp = Some [] \/ completion resp = None ->
  result (invoke_agent json_loads clock self query privilege session_id st) =
  Return (py "",
          Some match sessionId resp with
               | Some top => top
               | None =>
                 match session_id with
                 | Some (c :: s) => c :: s
                 | _ => py "session-" ++ str_of_int (clock (S (ticks st)))
                 end
               end).
Proof.
  intros Hreq Hclient Hnone.
  rewrite (invoke_agent_answered json_loads clock self query privilege
             session_id st req resp Hreq Hclient).
  rewrite try_on_failure_result.
  set (st1 := entered session_id st).
  assert (Hticks : ticks st1 = if truthy_opt session_id then ticks st else S (ticks st))
    by reflexivity.
  clearbody st1.
  assert (exists st2, consume json_loads resp st1 = (Return tt, st2) /\
                      response_text st2 = JStr (py "") /\
                      returned_session_id st2 = None /\
                      ticks st2 = ticks st1) as (st2 & Hrun2 & Htext2 & Hsid2 & Hticks2).
  { unfold consume. destruct Hnone as [-> | ->];
      (eexists; split; [reflexivity |]); cbn; auto. }
  rewrite (process_response_returned _ _ _ _ Hrun2), conclude_result.
  rewrite Htext2, Hsid2, Hticks2, Hticks, strip_empty.
  destruct (sessionId resp) as [top |]; [reflexivity |].
  destruct session_id as [[| c s] |]; reflexivity.
Qed.

End NoEvents.

(** C8, as amended.  When the stream has no event and the envelope has no
    session id of its own, [invoke_agent] returns the empty text together
    with the session id of the request when a non-empty one was supplied,
    and with a fresh time-derived id otherwise. *)
Theorem empty_stream_result :
  forall (json_loads : pystr -> outcome json) (clock : nat -> Z)
         (self : BedrockAgentCore) (query : pystr) (privilege : bool)
         (session_id : option pystr) (st : state)
         (req : agent_request) (resp : response),
    result (create_agent_request clock self query privilege session_id st)
      = Return req ->
    client self req = Return resp ->
    completion resp = Some [] ->
    sessionId resp = None ->
    result (invoke_agent json_loads clock self query privilege session_id st) =
    Return (py "",
            Some match session_id with
                 | Some (c :: s) => c :: s
                 | _ => py "session-" ++ str_of_int (clock (S (ticks st)))
                 end).
Proof.
  intros json_loads clock self query privilege session_id st req resp
    Hreq Hclient Hempty Htop.
  rewrite (no_event_result json_loads clock self query privilege session_id st
             req resp Hreq Hclient (or_introl Hempty)).
  now rewrite Htop.
Qed.

Lemma empty_stream_result_witness :
  result (invoke_agent sample_loads sample_clock (sample_core (stream [] None))
            (py "status of the release") false None start) =
  Return (py "", Some (py "session-1700000001")).
Proof.
  exact (empty_stream_result sample_loads sample_clock
           (sample_core (stream [] None)) (py "status of the release") false None
           start _ _ eq_refl eq_refl eq_refl eq_refl).
Defined.

(** C8, as stated, fails: with an empty stream and a session id in the
    request, the id handed back is the request's own, which is not a
    generated one. *)
Lemma empty_stream_generated_id_counterexample :
  result (invoke_agent sample_loads sample_clock (sample_core (stream [] None))
            (py "status of the release") false (Some (py "abc")) start) =
  Return (py "", Some (py "abc")) /\
  forall t : Z, py "abc" <> py "session-" ++ str_of_int t.
Proof.
  split; [reflexivity |]. intros t H. discriminate H.
Qed.

(** C10. An envelope without a [completion] entry does not make
    [invoke_agent] raise: the call ends as it does on an empty stream,
    with the empty text and the session id settled by the same rules. *)
Theorem missing_completion_is_empty_stream :
  forall (json_loads : pystr -> outcome json) (clock : nat -> Z)
         (self : BedrockAgentCore) (query : pystr) (privilege : bool)
         (session_id : option pystr) (st : state)
         (req : agent_request) (resp : response),
    result (create_agent_request clock self query privilege session_id st)
      = Return req ->
    client self req = Return resp ->
    completion resp = None ->
    result (invoke_agent json_loads clock self query privilege session_id st) =
    result (invoke_agent json_loads clock (answering self (with_completion resp []))
              query privilege session_id st) /\
    result (invoke_agent json_loads clock self query privilege session_id st) =
    Return (py "",
            Some match sessionId resp with
                 | Some top => top
                 | None =>
                   match session_id with
                   | Some (c :: s) => c :: s
                   | _ => py "session-" ++ str_of_int (clock (S (ticks st)))
                   end
                 end).
Proof.
  intros json_loads clock self query privilege session_id st req resp
    Hreq Hclient Hnone.
  rewrite (no_event_result json_loads clock self query privilege session_id st
             req resp Hreq Hclient (or_intror Hnone)).
  split; [| reflexivity].
  symmetry.
  apply (no_event_result json_loads clock (answering self (with_completion resp []))
           query privilege session_id st req (with_completion resp []));
    [exact Hreq | reflexivity | now left].
Qed.

Lemma missing_completion_is_empty_stream_witness :
  result (invoke_agent sample_loads sample_clock (sample_core no_completion)
            (py "status of the release") false (Some (py "abc")) start) =
  result (invoke_agent sample_loads sample_clock (sample_core (stream [] None))
            (py "status of the release") false (Some (py "abc")) start) /\
  result (invoke_agent sample_loads sample_clock (sample_core no_completion)
            (py "status of the release") false (Some (py "abc")) start) =
  Return (py "", Some (py "abc")).
Proof.
  exact (missing_completion_is_empty_stream sample_loads sample_clock
           (sample_core no_completion) (py "status of the release") false
           (Some (py "abc")) start _ _ eq_refl eq_refl eq_refl).
Defined.

(** ** The loop over the events *)

Lemma last_of_In A (l : list A) x : last_of l = Some x -> In x l.
Proof.
  induction l as [| y l IH]; [discriminate |].
  rewrite last_of_cons. destruct (last_of l) as [z |]; intros H; inversion H; subst.
  - right. now apply IH.
  - now left.
Qed.

Lemma collect_In A B (f : A -> option B) l y :
  In y (collect f l) -> exists x, In x l /\ f x = Some y.
Proof.
  induction l as [| x l IH]; cbn; [tauto |].
  destruct (f x) as [z |] eqn:E.
  - intros [-> | H].
    + exists x. auto.
    + destruct (IH H) as (x' & Hin & Hf). exists x'. auto.
  - intros H. destruct (IH H) as (x' & Hin & Hf). exists x'. auto.
Qed.

(** A message to the user is never empty. *)
Lemma user_message_truthy item c : user_message item = Some c -> truthy c = true.
Proof.
  unfold user_message. intros H.
  repeat match type of H with
  | context [match ?x with _ => _ end] =>
    lazymatch x with
    | context [match _ with _ => _ end] => fail
    | _ => destruct x eqn:?
    end
  end; try discriminate.
  inversion H; subst.
  repeat match goal with
  | E : _ && _ = true |- _ => apply andb_prop in E; destruct E
  end.
  assumption.
Qed.

Section Loop.

Variable json_loads : pystr -> outcome json.
Variable clock : nat -> Z.

Lemma event_message_truthy ev c :
  In c (event_messages json_loads ev) -> truthy c = true.
Proof.
  unfold event_messages.
  destruct (raw_payload ev) as [raw |]; [| contradiction].
  destruct (json_loads raw) as [e | parsed]; [contradiction |].
  intros H. apply collect_In in H. destruct H as (item & _ & H).
  eapply user_message_truthy; eauto.
Qed.

(** What is left of [handle_event] once its steps on the state are run. *)
Lemma handle_event_unfold ev st :
  handle_event json_loads ev st =
  (handle_trace json_loads ev ;;
   logger INFO "Full event: " ;;
   handle_chunk ev)
    {| response_text := response_text st;
       returned_session_id := returned_session_id st;
       all_events := all_events st ++ [ev];
       log := log st ++ [(INFO, "Event keys: "%string)];
       ticks := ticks st |}.
Proof. reflexivity. Qed.

(** One event: the text becomes the last message of the event, if it has
    one; a text already extracted is kept otherwise. *)
Lemma handle_event_text ev st st' :
  handle_event json_loads ev st = (Return tt, st') ->
  (forall c, last_of (event_messages json_loads ev) = Some c -> response_text st' = c) /\
  (event_messages json_loads ev = [] ->
   truthy (response_text st) = true -> response_text st' = response_text st).
Proof.
  rewrite handle_event_unfold. intros H.
  returned H. destruct a. apply handle_trace_returns in Hrun.
  destruct Hrun as (Htext & _). cbn [response_text] in Htext.
  unfold bind at 1 in H. cbn [logger] in H.
  apply handle_chunk_returns in H. destruct H as (Hkeep & _).
  cbn [response_text] in Hkeep.
  split.
  - intros c Hlast. unfold last_or in Htext. rewrite Hlast in Htext.
    rewrite Hkeep; [exact Htext |]. rewrite Htext.
    eapply event_message_truthy, last_of_In, Hlast.
  - intros Hnone Htruthy. rewrite Hnone in Htext. cbn in Htext.
    rewrite Hkeep; congruence.
Qed.

(** The whole stream: the text ends as the last message of the stream. *)
Lemma loop_text events st st' :
  for_each events (handle_event json_loads) st = (Return tt, st') ->
  (forall c, last_of (stream_messages json_loads events) = Some c ->
             response_text st' = c) /\
  (stream_messages json_loads events = [] ->
   truthy (response_text st) = true -> response_text st' = response_text st).
Proof.
  revert st. induction events as [| ev events IH]; intros st H.
  - inversion H; subst. split; [discriminate | reflexivity].
  - cbn [for_each] in H. returned H. destruct a.
    apply handle_event_text in Hrun. destruct Hrun as (Hlast & Hkeep).
    apply IH in H. destruct H as (Hlast' & Hkeep').
    unfold stream_messages in *. cbn [flat_map]. split.
    + intros c Hc. rewrite last_of_app in Hc.
      destruct (last_of (flat_map (event_messages json_loads) events)) as [y |] eqn:E.
      * inversion Hc; subst. now apply Hlast'.
      * apply last_of_None in E.
        rewrite Hkeep'; [now apply Hlast | exact E |].
        rewrite (Hlast c Hc).
        eapply event_message_truthy, last_of_In, Hc.
    + intros Hnil Htruthy. apply app_eq_nil in Hnil. destruct Hnil as (Hn1 & Hn2).
      rewrite Hkeep'; [now apply Hkeep | exact Hn2 |].
      rewrite Hkeep; auto.
Qed.

(** A call that returned ran its loop to the end. *)
Lemma returned_call_ran_loop self query privilege session_id st req resp events v :
  result (create_agent_request clock self query privilege session_id st) = Return req ->
  client self req = Return resp ->
  completion resp = Some events ->
  result (invoke_agent json_loads clock self query privilege session_id st) = Return v ->
  exists st1,
    for_each events (handle_event json_loads) (looping (entered session_id st))
      = (Return tt, st1) /\
    result (conclude clock resp session_id st1) = Return v /\
    final (invoke_agent json_loads clock self query privilege session_id st) =
    final (conclude clock resp session_id st1).
Proof.
  intros Hreq Hclient Hevents Hv.
  rewrite (invoke_agent_answered json_loads clock self query privilege
             session_id st req resp Hreq Hclient) in *.
  rewrite try_on_failure_result in Hv.
  destruct (result (process_response json_loads clock resp session_id
                      (entered session_id st))) as [e | w] eqn:Hp;
    [discriminate |].
  rewrite (try_on_failure_final _ _ _ _ Hp).
  inversion Hv; subst w. clear Hv.
  destruct (consume json_loads resp (entered session_id st)) as [[e | []] st1] eqn:Hc.
  - rewrite (process_response_raised _ _ _ _ _ _ _ Hc) in Hp. discriminate.
  - rewrite (process_response_returned _ _ _ _ _ _ Hc) in *.
    rewrite (consume_run _ _ _ _ Hevents) in Hc.
    exists st1. auto.
Qed.

(** A loop that raised makes the call raise. *)
Lemma raised_loop_raises_call self query privilege session_id st req resp events e st1 :
  result (create_agent_request clock self query privilege session_id st) = Return req ->
  client self req = Return resp ->
  completion resp = Some events ->
  for_each events (handle_event json_loads) (looping (entered session_id st))
    = (Raise e, st1) ->
  result (invoke_agent json_loads clock self query privilege session_id st)
    = Raise (reraised e).
Proof.
  intros Hreq Hclient Hevents Hloop.
  rewrite (invoke_agent_answered json_loads clock self query privilege
             session_id st req resp Hreq Hclient).
  rewrite try_on_failure_result.
  rewrite <- (consume_run json_loads _ _ _ Hevents) in Hloop.
  now rewrite (process_response_raised _ _ _ _ _ _ _ Hloop).
Qed.

(** The first event on which the body raises decides the exception. *)
Lemma loop_raises_at pre ev post st st1 e st2 :
  for_each pre (handle_event json_loads) st = (Return tt, st1) ->
  handle_event json_loads ev st1 = (Raise e, st2) ->
  for_each (pre ++ ev :: post) (handle_event json_loads) st = (Raise e, st2).
Proof.
  intros Hpre Hev. rewrite for_each_app, Hpre. cbn [for_each].
  now rewrite (bind_Raise _ _ _ Hev).
Qed.

End Loop.

(** ** Tool messages and chunk text *)

(** Chunk text never replaces nor extends a text that is already there. *)
Lemma chunk_keeps_extracted_text ev st st' :
  truthy (response_text st) = true ->
  handle_chunk ev st = (Return tt, st') ->
  response_text st' = response_text st.
Proof.
  intros Ht H. apply handle_chunk_returns in H. destruct H as [H _]. now apply H.
Qed.

Lemma stream_message_truthy json_loads events m :
  In m (stream_messages json_loads events) -> truthy m = true.
Proof.
  unfold stream_messages. intros H. apply in_flat_map in H.
  destruct H as (ev & _ & H). eapply event_message_truthy; eauto.
Qed.

(** C2, as amended.  When the stream carries send-message tool
    invocations with a non-empty content, the text that [invoke_agent]
    returns is the content of the last of them in arrival order, trimmed,
    whatever chunk text came before, between or after; and once the text
    is the content of such an invocation, the chunk of a later event
    neither replaces nor extends it. *)
Theorem last_tool_message_wins :
  forall (json_loads : pystr -> outcome json) (clock : nat -> Z)
         (self : BedrockAgentCore) (query : pystr) (privilege : bool)
         (session_id : option pystr) (st : state)
         (req : agent_request) (resp : response) (events : list event)
         (c : json) (text : pystr) (sid : option pystr),
    result (create_agent_request clock self query privilege session_id st)
      = Return req ->
    client self req = Return resp ->
    completion resp = Some events ->
    last_of (stream_messages json_loads events) = Some c ->
    result (invoke_agent json_loads clock self query privilege session_id st)
      = Return (text, sid) ->
    (exists s, c = JStr s /\ text = strip s) /\
    (forall (m : json) (ev : event) (s s' : state),
       In m (stream_messages json_loads events) ->
       response_text s = m ->
       handle_chunk ev s = (Return tt, s') ->
       response_text s' = m).
Proof.
  intros json_loads clock self query privilege session_id st req resp events
    c text sid Hreq Hclient Hevents Hlast Hret.
  split.
  - destruct (returned_call_ran_loop json_loads clock self query privilege session_id
                st req resp events _ Hreq Hclient Hevents Hret)
      as (st1 & Hloop & Hend & _).
    apply loop_text in Hloop. destruct Hloop as (Htext & _).
    rewrite conclude_result, (Htext c Hlast) in Hend.
    destruct c as [| | | | s | |]; try discriminate.
    exists s. split; [reflexivity |]. now inversion Hend.
  - intros m ev s s' Hin Hm Hchunk. rewrite <- Hm.
    apply (chunk_keeps_extracted_text ev); [| exact Hchunk].
    rewrite Hm. eapply stream_message_truthy; eauto.
Qed.

Lemma last_tool_message_wins_witness :
  last_of (stream_messages sample_loads
             [ trace_event text_hello;
               chunk_event (pybytes "chunk text") None;
               trace_event text_bye;
               chunk_event (pybytes " more") None ])
    = Some (JStr (py "Bye")) /\
  result (invoke_agent sample_loads sample_clock
            (sample_core (stream [ trace_event text_hello;
                                   chunk_event (pybytes "chunk text") None;
                                   trace_event text_bye;
                                   chunk_event (pybytes " more") None ] None))
            (py "status of the release") false (Some (py "abc")) start)
    = Return (py "Bye", Some (py "abc")) /\
  (exists s, JStr (py "Bye") = JStr s /\ py "Bye" = strip s).
Proof.
  split; [reflexivity |]. split; [reflexivity |].
  exact (proj1 (last_tool_message_wins sample_loads sample_clock
           (sample_core (stream [ trace_event text_hello;
                                  chunk_event (pybytes "chunk text") None;
                                  trace_event text_bye;
                                  chunk_event (pybytes " more") None ] None))
           (py "status of the release") false (Some (py "abc")) start
           _ _ _ (JStr (py "Bye")) (py "Bye") (Some (py "abc"))
           eq_refl eq_refl eq_refl eq_refl eq_refl)).
Defined.

(** C2, as stated, fails: two tool invocations address the user, and the
    text returned is the content of the second, not of the first. *)
Lemma earlier_tool_message_counterexample :
  In (JStr (py "Hello from the tool"))
     (stream_messages sample_loads [trace_event text_hello; trace_event text_bye]) /\
  result (invoke_agent sample_loads sample_clock
            (sample_core (stream [trace_event text_hello; trace_event text_bye] None))
            (py "status of the release") false (Some (py "abc")) start)
    = Return (py "Bye", Some (py "abc")) /\
  strip (py "Hello from the tool") <> py "Bye".
Proof.
  split; [now left |]. split; [reflexivity |]. discriminate.
Qed.

(** C3, evaluated: on two chunks the code returns the first one alone,
    not the concatenation of the two. *)
Theorem second_chunk_is_dropped :
  result (invoke_agent sample_loads sample_clock
            (sample_core (stream [ chunk_event (pybytes "Hello ") None;
                                   chunk_event (pybytes "world") None ] None))
            (py "status of the release") false (Some (py "abc")) start)
    = Return (py "Hello", Some (py "abc")) /\
  strip (py "Hello " ++ py "world") = py "Hello world".
Proof. split; reflexivity. Qed.

(** C1, evaluated: with no session id on the envelope, the id a chunk
    carried is not the one returned; a fresh one is generated instead. *)
Theorem chunk_session_id_is_replaced :
  result (invoke_agent sample_loads sample_clock
            (sample_core (stream [ chunk_event (pybytes "hi")
                                     (Some (py "chunk-session")) ] None))
            (py "status of the release") false (Some (py "abc")) start)
    = Return (py "hi", Some (py "session-1700000000")).
Proof. reflexivity. Qed.

(** ** Failures inside the loop *)

Lemma bind_raises A B (m : M A) (k : A -> M B) st e :
  result (m st) = Raise e -> result (bind m k st) = Raise e.
Proof. unfold bind. destruct (m st) as [[e' | a] st1]; cbn; congruence. Qed.

Lemma related_bind_gen A B (m : M A) (k1 k2 : A -> M B) :
  tame m ->
  (forall x a b, same_locals a b -> related (k1 x a) (k2 x b)) ->
  forall a b, same_locals a b -> related (bind m k1 a) (bind m k2 b).
Proof.
  intros [_ Hm] Hk a b Hab. specialize (Hm a b Hab).
  unfold related, bind in *. destruct Hm as [Hr Hs].
  destruct (m a) as [[e1 | x1] a1], (m b) as [[e2 | x2] b1];
    cbn in Hr, Hs; try discriminate.
  - inversion Hr; subst. now split.
  - inversion Hr; subst. now apply Hk.
Qed.

Section Failures.

Variable json_loads : pystr -> outcome json.
Variable clock : nat -> Z.

Lemma payload_has_trace ev raw :
  raw_payload ev = Some raw -> exists tr, event_trace ev = Some tr.
Proof.
  unfold raw_payload. destruct (event_trace ev) as [tr |]; [eauto | discriminate].
Qed.

(** A payload that [json.loads] rejects with [JSONDecodeError]: the
    trace is logged, the failure is logged as a warning, nothing else
    changes. *)
Lemma handle_trace_malformed ev raw st :
  raw_payload ev = Some raw ->
  json_loads raw = Raise JSONDecodeError ->
  handle_trace json_loads ev st =
  (Return tt,
   {| response_text := response_text st;
      returned_session_id := returned_session_id st;
      all_events := all_events st;
      log := (log st ++ [(INFO, "TRACE EVENT: "%string)])
             ++ [(WARNING, "Failed to parse raw response: "%string)];
      ticks := ticks st |}).
Proof.
  intros Hraw Hloads. rewrite handle_trace_unfold.
  destruct (payload_has_trace ev raw Hraw) as (tr & ->).
  rewrite Hraw. unfold bind at 1. cbn [logger].
  unfold try_except, scan_raw_response, loads. rewrite Hloads. reflexivity.
Qed.

(** A payload that parses to something else than an object: the first
    [.get] raises, and the handler lets it through. *)
Lemma handle_trace_non_object ev raw v st :
  raw_payload ev = Some raw ->
  json_loads raw = Return v ->
  is_object v = false ->
  result (handle_trace json_loads ev st) = Raise AttributeError.
Proof.
  intros Hraw Hloads Hv. rewrite handle_trace_unfold.
  destruct (payload_has_trace ev raw Hraw) as (tr & ->).
  rewrite Hraw. unfold bind at 1. cbn [logger].
  unfold try_except, scan_raw_response, loads. rewrite Hloads.
  destruct v; try discriminate; reflexivity.
Qed.

(** Bytes that do not decode: [handle_chunk] raises before it looks at
    the text gathered so far. *)
Lemma handle_chunk_undecodable ev ch bs st :
  event_chunk ev = Some ch ->
  chunk_bytes ch = Some bs ->
  bytes_decode bs = None ->
  result (handle_chunk ev st) = Raise UnicodeDecodeError.
Proof.
  intros Hch Hbs Hdec. unfold handle_chunk. rewrite Hch, Hbs.
  unfold bind at 1. cbn [logger]. unfold bind at 1. cbn [logger].
  apply bind_raises, bind_raises. unfold decode. now rewrite Hdec.
Qed.

(** The event whose trace is malformed and the event without the trace
    leave the locals alike. *)
Lemma handle_event_drop_trace ev raw a b :
  raw_payload ev = Some raw ->
  json_loads raw = Raise JSONDecodeError ->
  same_locals a b ->
  related (handle_event json_loads ev a) (handle_event json_loads (drop_trace ev) b).
Proof.
  intros Hraw Hloads Hab. rewrite !handle_event_unfold.
  rewrite (bind_Return _ _ _ (handle_trace_malformed ev raw _ Hraw Hloads)).
  change (handle_trace json_loads (drop_trace ev)) with (@ret unit tt).
  unfold bind at 3. cbn [ret].
  unfold bind at 1. cbn [logger]. unfold bind at 1. cbn [logger].
  change (handle_chunk (drop_trace ev)) with (handle_chunk ev).
  apply tame_handle_chunk.
  destruct Hab as (H1 & H2 & H3). repeat split; assumption.
Qed.

Lemma loop_drop_trace pre ev post raw a b :
  raw_payload ev = Some raw ->
  json_loads raw = Raise JSONDecodeError ->
  same_locals a b ->
  related (for_each (pre ++ ev :: post) (handle_event json_loads) a)
          (for_each (pre ++ drop_trace ev :: post) (handle_event json_loads) b).
Proof.
  intros Hraw Hloads. revert a b.
  induction pre as [| x pre IH]; intros a b Hab.
  - cbn [app for_each]. apply related_bind.
    + now apply (handle_event_drop_trace ev raw).
    + intros []. apply tame_for_each. intros y. apply tame_handle_event.
  - cbn [app for_each]. apply related_bind_gen.
    + apply tame_handle_event.
    + intros [] a' b' Hab'. now apply IH.
    + exact Hab.
Qed.

(** The warning stays in the log to the end of a loop that returns. *)
Lemma loop_logs_warning pre ev post raw st st' :
  raw_payload ev = Some raw ->
  json_loads raw = Raise JSONDecodeError ->
  for_each (pre ++ ev :: post) (handle_event json_loads) st = (Return tt, st') ->
  In (WARNING, "Failed to parse raw response: "%string) (log st').
Proof.
  intros Hraw Hloads H. rewrite for_each_app in H.
  destruct (for_each pre (handle_event json_loads) st) as [[e | []] st1];
    [discriminate |].
  cbn [for_each] in H. returned H. destruct a.
  assert (Hpost : incl (log st0) (log st')).
  { pose proof (tame_for_each _ (handle_event json_loads) post
                  (tame_handle_event json_loads)) as [Hlog _].
    specialize (Hlog st0). now rewrite H in Hlog. }
  apply Hpost. clear H Hpost.
  rewrite handle_event_unfold in Hrun.
  rewrite (bind_Return _ _ _ (handle_trace_malformed ev raw _ Hraw Hloads)) in Hrun.
  assert (Htail : tame (logger INFO "Full event: " ;; handle_chunk ev)).
  { apply tame_bind; [apply tame_logger | intros _; apply tame_handle_chunk]. }
  destruct Htail as [Hlog _].
  match type of Hrun with
  | _ ?s = _ => specialize (Hlog s)
  end.
  rewrite Hrun in Hlog. apply Hlog. cbn.
  apply in_or_app. right. now left.
Qed.

End Failures.




(** C9. A trace event whose payload parses to JSON that is not an object
    makes the whole call raise; when the events before it go through,
    what is raised is the [AttributeError] of that event. *)
Theorem non_object_payload_raises :
  forall (json_loads : pystr -> outcome json) (clock : nat -> Z)
         (self : BedrockAgentCore) (query : pystr) (privilege : bool)
         (session_id : option pystr) (st : state)
         (req : agent_request) (resp : response)
         (pre : list event) (ev : event) (post : list event)
         (raw : pystr) (v : json),
    result (create_agent_request clock self query privilege session_id st)
      = Return req ->
    client self req = Return resp ->
    completion resp = Some (pre ++ ev :: post) ->
    raw_payload ev = Some raw ->
    json_loads raw = Return v ->
    is_object v = false ->
    exists x,
      result (invoke_agent json_loads clock self query privilege session_id st)
        = Raise x /\
      (forall w,
         result (invoke_agent json_loads clock
                   (answering self (with_completion resp pre))
                   query privilege session_id st) = Return w ->
         x = AttributeError).
Proof.
  intros json_loads clock self query privilege session_id st req resp
    pre ev post raw v Hreq Hclient Hevents Hraw Hloads Hv.
  destruct (for_each pre (handle_event json_loads) (looping (entered session_id st)))
    as [[e | []] st1] eqn:Hpre.
  - exists (reraised e). split.
    + eapply raised_loop_raises_call; eauto.
      rewrite for_each_app, Hpre. reflexivity.
    + intros w Hw. exfalso.
      rewrite (raised_loop_raises_call json_loads clock
                 (answering self (with_completion resp pre)) query privilege
                 session_id st req (with_completion resp pre) pre e st1
                 Hreq eq_refl eq_refl Hpre) in Hw.
      discriminate.
  - exists AttributeError. split; [| reflexivity].
    destruct (handle_event json_loads ev st1) as [[e | []] st2] eqn:Hev.
    + assert (e = AttributeError) as ->.
      { pose proof (f_equal result Hev) as Hr. rewrite handle_event_unfold in Hr.
        rewrite (bind_raises _ _ _ _ _ _
                   (handle_trace_non_object json_loads ev raw v _ Hraw Hloads Hv)) in Hr.
        cbn in Hr. congruence. }
      apply (raised_loop_raises_call json_loads clock self query privilege
               session_id st req resp (pre ++ ev :: post) AttributeError st2
               Hreq Hclient Hevents).
      eapply loop_raises_at; eauto.
    + exfalso.
      pose proof (f_equal result Hev) as Hr. rewrite handle_event_unfold in Hr.
      rewrite (bind_raises _ _ _ _ _ _
                 (handle_trace_non_object json_loads ev raw v _ Hraw Hloads Hv)) in Hr.
      discriminate.
Qed.

Lemma non_object_payload_raises_witness :
  sample_loads text_array = Return (JArr [JInt 1; JInt 2]) /\
  result (invoke_agent sample_loads sample_clock
            (sample_core (stream [ chunk_event (pybytes "partial") None;
                                   trace_event text_array;
                                   chunk_event (pybytes "answer") None ] None))
            (py "status of the release") false (Some (py "abc")) start)
    = Raise AttributeError /\
  exists x,
    result (invoke_agent sample_loads sample_clock
              (sample_core (stream [ chunk_event (pybytes "partial") None;
                                     trace_event text_array;
                                     chunk_event (pybytes "answer") None ] None))
              (py "status of the release") false (Some (py "abc")) start)
      = Raise x /\
    (forall w,
       result (invoke_agent sample_loads sample_clock
                 (sample_core (stream [ chunk_event (pybytes "partial") None ] None))
                 (py "status of the release") false (Some (py "abc")) start)
         = Return w ->
       x = AttributeError).
Proof.
  split; [reflexivity |]. split; [reflexivity |].
  exact (non_object_payload_raises sample_loads sample_clock
           (sample_core (stream [ chunk_event (pybytes "partial") None;
                                  trace_event text_array;
                                  chunk_event (pybytes "answer") None ] None))
           (py "status of the release") false (Some (py "abc")) start
           _ _ [chunk_event (pybytes "partial") None] (trace_event text_array)
           [chunk_event (pybytes "answer") None] text_array (JArr [JInt 1; JInt 2])
           eq_refl eq_refl eq_refl eq_refl eq_refl eq_refl).
Defined.

(** C7. A chunk whose bytes are not UTF-8 is fatal for the call:
    [invoke_agent] raises and returns nothing; when the events before it
    and the trace of its own event go through, what is raised is the
    [UnicodeDecodeError] of the chunk. *)
Theorem undecodable_chunk_is_fatal :
  forall (json_loads : pystr -> outcome json) (clock : nat -> Z)
         (self : BedrockAgentCore) (query : pystr) (privilege : bool)
         (session_id : option pystr) (st : state)
         (req : agent_request) (resp : response)
         (pre : list event) (ev : event) (post : list event)
         (ch : chunk) (bs : list byte),
    result (create_agent_request clock self query privilege session_id st)
      = Return req ->
    client self req = Return resp ->
    completion resp = Some (pre ++ ev :: post) ->
    event_chunk ev = Some ch ->
    chunk_bytes ch = Some bs ->
    bytes_decode bs = None ->
    exists x,
      result (invoke_agent json_loads clock self query privilege session_id st)
        = Raise x /\
      (forall w,
         result (invoke_agent json_loads clock
                   (answering self (with_completion resp (pre ++ [drop_chunk ev])))
                   query privilege session_id st) = Return w ->
         x = UnicodeDecodeError).
Proof.
  intros json_loads clock self query privilege session_id st req resp
    pre ev post ch bs Hreq Hclient Hevents Hch Hbs Hdec.
  set (resp' := with_completion resp (pre ++ [drop_chunk ev])).
  assert (Hshort : forall e s,
            for_each (pre ++ [drop_chunk ev]) (handle_event json_loads)
              (looping (entered session_id st)) = (Raise e, s) ->
            forall w,
              result (invoke_agent json_loads clock (answering self resp')
                        query privilege session_id st) <> Return w).
  { intros e s Hloop w Hw.
    rewrite (raised_loop_raises_call json_loads clock (answering self resp')
               query privilege session_id st req resp' _ e s
               Hreq eq_refl eq_refl Hloop) in Hw.
    discriminate. }
  destruct (for_each pre (handle_event json_loads) (looping (entered session_id st)))
    as [[e | []] st1] eqn:Hpre.
  - exists (reraised e). split.
    + eapply raised_loop_raises_call; eauto.
      rewrite for_each_app, Hpre. reflexivity.
    + intros w Hw. exfalso. eapply Hshort; [| exact Hw].
      rewrite for_each_app, Hpre. reflexivity.
  - pose proof (handle_event_unfold json_loads ev st1) as Hfull.
    pose proof (handle_event_unfold json_loads (drop_chunk ev) st1) as Hcut.
    change (handle_trace json_loads (drop_chunk ev))
      with (handle_trace json_loads ev) in Hcut.
    destruct (tame_handle_trace json_loads ev) as [_ Hsame].
    match type of Hfull with
    | _ = _ ?a =>
      match type of Hcut with
      | _ = _ ?b =>
        assert (Hab : same_locals a b) by (repeat split);
        specialize (Hsame a b Hab);
        destruct (handle_trace json_loads ev a) as [[e | []] a'] eqn:Ha;
        destruct (handle_trace json_loads ev b) as [[e' | []] b'] eqn:Hb;
        destruct Hsame as [Hres _]; cbn in Hres; try discriminate
      end
    end.
    + inversion Hres; subst e'.
      rewrite (bind_Raise _ _ _ Ha) in Hfull.
      rewrite (bind_Raise _ _ _ Hb) in Hcut.
      exists (reraised e). split.
      * eapply raised_loop_raises_call; eauto.
        eapply loop_raises_at; eauto.
      * intros w Hw. exfalso. eapply Hshort; [| exact Hw].
        eapply loop_raises_at; eauto.
    + rewrite (bind_Return _ _ _ Ha) in Hfull.
      exists UnicodeDecodeError. split; [| reflexivity].
      assert (Hr : result (handle_event json_loads ev st1) = Raise UnicodeDecodeError).
      { rewrite Hfull. unfold bind at 1. cbn [logger].
        eapply handle_chunk_undecodable; eauto. }
      destruct (handle_event json_loads ev st1) as [[e | []] st2] eqn:Hev;
        cbn in Hr; [| discriminate].
      inversion Hr; subst e.
      apply (raised_loop_raises_call json_loads clock self query privilege
               session_id st req resp (pre ++ ev :: post) UnicodeDecodeError st2
               Hreq Hclient Hevents).
      eapply loop_raises_at; eauto.
Qed.

Lemma undecodable_chunk_is_fatal_witness :
  bytes_decode [xff; xfe] = None /\
  result (invoke_agent sample_loads sample_clock
            (sample_core (stream [ chunk_event (pybytes "partial ") None;
                                   chunk_event [xff; xfe] None;
                                   chunk_event (pybytes "answer") None ] None))
            (py "status of the release") false (Some (py "abc")) start)
    = Raise UnicodeDecodeError /\
  exists x,
    result (invoke_agent sample_loads sample_clock
              (sample_core (stream [ chunk_event (pybytes "partial ") None;
                                     chunk_event [xff; xfe] None;
                                     chunk_event (pybytes "answer") None ] None))
              (py "status of the release") false (Some (py "abc")) start)
      = Raise x /\
    (forall w,
       result (invoke_agent sample_loads sample_clock
                 (sample_core (stream [ chunk_event (pybytes "partial ") None;
                                        drop_chunk (chunk_event [xff; xfe] None) ]
                                      None))
                 (py "status of the release") false (Some (py "abc")) start)
         = Return w ->
       x = UnicodeDecodeError).
Proof.
  split; [reflexivity |]. split; [reflexivity |].
  exact (undecodable_chunk_is_fatal sample_loads sample_clock
           (sample_core (stream [ chunk_event (pybytes "partial ") None;
                                  chunk_event [xff; xfe] None;
                                  chunk_event (pybytes "answer") None ] None))
           (py "status of the release") false (Some (py "abc")) start
           _ _ [chunk_event (pybytes "partial ") None] (chunk_event [xff; xfe] None)
           [chunk_event (pybytes "answer") None] _ [xff; xfe]
           eq_refl eq_refl eq_refl eq_refl eq_refl eq_refl).
Defined.

(** ** What the code does where C1 and C3 expect otherwise *)

Lemma decode_nonempty bs t : bytes_decode bs = Some t -> bs <> [] -> t <> [].
Proof.
  unfold bytes_decode. destruct bs as [| b bs]; [congruence |].
  intros H _. cbn [map utf8_decode] in H. unfold option_map in H.
  repeat match type of H with
  | context [if ?x then _ else _] => destruct x
  | context [match ?x with _ => _ end] =>
    lazymatch x with
    | context [match _ with _ => _ end] => fail
    | context [if _ then _ else _] => fail
    | _ => destruct x
    end
  end; try discriminate; inversion H; subst; discriminate.
Qed.

Section Observed.

Variable json_loads : pystr -> outcome json.
Variable clock : nat -> Z.

Lemma handle_event_session ev st st' :
  handle_event json_loads ev st = (Return tt, st') ->
  returned_session_id st' =
    match chunk_session ev with
    | Some sid => Some sid
    | None => returned_session_id st
    end /\
  ticks st' = ticks st.
Proof.
  rewrite handle_event_unfold. intros H.
  returned H. destruct a. apply handle_trace_returns in Hrun.
  destruct Hrun as (_ & Hsid & Hticks). cbn [returned_session_id ticks] in Hsid, Hticks.
  unfold bind at 1 in H. cbn [logger] in H.
  pose proof (handle_chunk_session _ _ _ H) as Hs.
  apply handle_chunk_returns in H. destruct H as (_ & Ht).
  cbn [returned_session_id ticks] in Hs, Ht.
  split; [| congruence].
  rewrite Hs. unfold chunk_session.
  destruct (event_chunk ev) as [[bs [sid |]] |]; cbn; congruence.
Qed.

(** After the loop the captured session id is the one of the last chunk
    that carried one. *)
Lemma loop_session events st st' :
  for_each events (handle_event json_loads) st = (Return tt, st') ->
  returned_session_id st' =
    match last_of (collect chunk_session events) with
    | Some sid => Some sid
    | None => returned_session_id st
    end /\
  ticks st' = ticks st.
Proof.
  revert st. induction events as [| ev events IH]; intros st H.
  - inversion H; subst. auto.
  - cbn [for_each] in H. returned H. destruct a.
    apply handle_event_session in Hrun. destruct Hrun as (Hsid & Hticks).
    apply IH in H. destruct H as (Hsid' & Hticks').
    split; [| congruence].
    rewrite Hsid'. cbn [collect].
    destruct (chunk_session ev) as [sid |].
    + rewrite last_of_cons. destruct (last_of _); congruence.
    + destruct (last_of _); congruence.
Qed.

(** X12. The session id of a call that returns: the envelope's id; else
    the caller's id, when that is not empty and the last session id that
    a chunk carried, if any chunk carried one, is empty; else a generated
    id.  Of the ids of the chunks the last alone counts (an empty one
    after a non-empty one lets the caller's id through), and it only
    decides between the caller's id and a generated one: it is not
    itself the id handed back. *)
Lemma session_id_resolution self query privilege session_id st req resp events text sid :
  result (create_agent_request clock self query privilege session_id st) = Return req ->
  client self req = Return resp ->
  completion resp = Some events ->
  result (invoke_agent json_loads clock self query privilege session_id st)
    = Return (text, sid) ->
  sid =
    match sessionId resp with
    | Some top => Some top
    | None =>
      if negb (truthy_opt (last_of (collect chunk_session events)))
         && truthy_opt session_id
      then session_id
      else Some (py "session-" ++
                 str_of_int (clock (if truthy_opt session_id then ticks st
                                    else S (ticks st))))
    end.
Proof.
  intros Hreq Hclient Hevents Hret.
  destruct (returned_call_ran_loop json_loads clock self query privilege session_id
              st req resp events _ Hreq Hclient Hevents Hret)
    as (st1 & Hloop & Hend & _).
  apply loop_session in Hloop. destruct Hloop as (Hsid & Hticks).
  cbn [looping entered returned_session_id ticks] in Hsid, Hticks.
  rewrite conclude_result in Hend.
  destruct (response_text st1); try discriminate.
  inversion Hend; subst. rewrite Hsid, Hticks.
  now destruct (last_of (collect chunk_session events)).
Qed.

Lemma handle_event_text_chunk ev t st s :
  text_chunk ev t ->
  response_text st = JStr s ->
  exists st',
    handle_event json_loads ev st = (Return tt, st') /\
    response_text st' = JStr (match s with [] => t | _ => s end).
Proof.
  intros (Htrace & ch & bs & Hch & Hbs & _ & Hdec) Hs.
  rewrite handle_event_unfold, handle_trace_unfold, Htrace.
  unfold bind at 1. cbn [ret]. unfold bind at 1. cbn [logger].
  unfold handle_chunk. rewrite Hch, Hbs.
  unfold bind at 1. cbn [logger]. unfold bind at 1. cbn [logger].
  unfold decode. rewrite Hdec.
  unfold bind at 2. unfold bind at 2. cbn [ret].
  unfold bind at 2. cbn [get_response_text response_text]. rewrite Hs.
  destruct s as [| c s]; destruct (chunk_sessionId ch) as [sid |]; cbn;
    eexists; split; reflexivity.
Qed.

Lemma loop_text_chunks events texts st s :
  Forall2 text_chunk events texts ->
  response_text st = JStr s ->
  exists st',
    for_each events (handle_event json_loads) st = (Return tt, st') /\
    response_text st' = JStr (match s with [] => hd [] texts | _ => s end).
Proof.
  intros H. revert st s.
  induction H as [| ev t events texts Hev _ IH]; intros st s Hs.
  - exists st. split; [reflexivity |]. now destruct s.
  - destruct (handle_event_text_chunk ev t st s Hev Hs) as (st1 & Hrun & Hs1).
    destruct (IH st1 _ Hs1) as (st' & Hloop & Hs').
    exists st'. cbn [for_each]. rewrite (bind_Return _ _ _ Hrun).
    split; [exact Hloop |]. rewrite Hs'. cbn [hd].
    destruct s as [| c s]; [| reflexivity].
    destruct t as [| c t]; [| reflexivity].
    exfalso. destruct Hev as (_ & ch & bs & _ & _ & Hne & Hdec).
    now apply (decode_nonempty bs [] Hdec Hne).
Qed.

(** X13. On a stream of chunks alone, each with a non-empty payload that
    decodes, the call returns, and the text returned is the first chunk,
    trimmed: the chunks after it are not appended. *)
Lemma only_first_chunk_is_kept self query privilege session_id st req resp events texts :
  result (create_agent_request clock self query privilege session_id st) = Return req ->
  client self req = Return resp ->
  completion resp = Some events ->
  Forall2 text_chunk events texts ->
  exists sid,
    result (invoke_agent json_loads clock self query privilege session_id st)
      = Return (strip (hd [] texts), sid).
Proof.
  intros Hreq Hclient Hevents Hchunks.
  rewrite (invoke_agent_answered json_loads clock self query privilege
             session_id st req resp Hreq Hclient).
  rewrite try_on_failure_result.
  destruct (loop_text_chunks events texts (looping (entered session_id st)) []
              Hchunks eq_refl) as (st1 & Hloop & Htext).
  rewrite <- (consume_run json_loads resp _ _ Hevents) in Hloop.
  rewrite (process_response_returned _ _ _ _ _ _ Hloop), conclude_result, Htext.
  eexists. reflexivity.
Qed.

End Observed.

(** * Further properties of the invoker *)

Lemma last_of_snoc A (l : list A) (x : A) : last_of (l ++ [x]) = Some x.
Proof. now rewrite last_of_app. Qed.

Lemma session_prefix_nonempty s : py "session-" ++ s <> [].
Proof. unfold py. cbn. discriminate. Qed.

Lemma lstrip_head s :
  match lstrip s with
  | c :: _ => py_isspace c = false
  | [] => True
  end.
Proof.
  induction s as [| c s IH]; cbn [lstrip]; [exact I |].
  destruct (py_isspace c) eqn:E; [exact IH | exact E].
Qed.

Lemma lstrip_fixed c s : py_isspace c = false -> lstrip (c :: s) = c :: s.
Proof. intros H. cbn [lstrip]. now rewrite H. Qed.

Lemma lstrip_snoc s c :
  py_isspace c = false -> lstrip (s ++ [c]) = lstrip s ++ [c].
Proof.
  intros H. induction s as [| a s IH]; cbn [app lstrip].
  - now rewrite H.
  - destruct (py_isspace a); [exact IH | reflexivity].
Qed.

(** [strip] leaves no white space at either end. *)
Lemma strip_ends s :
  match strip s with
  | c :: _ => py_isspace c = false
  | [] => True
  end /\
  match rev (strip s) with
  | c :: _ => py_isspace c = false
  | [] => True
  end.
Proof.
  unfold strip, rstrip. split.
  - pose proof (lstrip_head s) as H.
    destruct (lstrip s) as [| c r]; [exact I |].
    cbn [rev]. rewrite (lstrip_snoc _ _ H), rev_app_distr. cbn. exact H.
  - rewrite rev_involutive. apply lstrip_head.
Qed.

Lemma strip_fixed s :
  match s with c :: _ => py_isspace c = false | [] => True end ->
  match rev s with c :: _ => py_isspace c = false | [] => True end ->
  strip s = s.
Proof.
  intros Hfirst Hlast. unfold strip, rstrip.
  assert (lstrip s = s) as ->.
  { destruct s as [| c r]; [reflexivity | now apply lstrip_fixed]. }
  assert (lstrip (rev s) = rev s) as ->.
  { destruct (rev s) as [| c r]; [reflexivity | now apply lstrip_fixed]. }
  apply rev_involutive.
Qed.

Section MoreInvoker.

Variable json_loads : pystr -> outcome json.
Variable clock : nat -> Z.

(** A call that returned went through the last lines of the [try] block. *)
Lemma returned_call_concluded self query privilege session_id st req resp v :
  result (create_agent_request clock self query privilege session_id st) = Return req ->
  client self req = Return resp ->
  result (invoke_agent json_loads clock self query privilege session_id st) = Return v ->
  exists st1,
    consume json_loads resp (entered session_id st) = (Return tt, st1) /\
    result (conclude clock resp session_id st1) = Return v.
Proof.
  intros Hreq Hclient Hv.
  rewrite (invoke_agent_answered json_loads clock self query privilege
             session_id st req resp Hreq Hclient) in Hv.
  rewrite try_on_failure_result in Hv.
  destruct (consume json_loads resp (entered session_id st)) as [[e | []] st1] eqn:Hc.
  - rewrite (process_response_raised _ _ _ _ _ _ _ Hc) in Hv. discriminate.
  - rewrite (process_response_returned _ _ _ _ _ _ Hc) in Hv.
    exists st1. split; [reflexivity |].
    destruct (result (conclude clock resp session_id st1)); [discriminate | exact Hv].
Qed.

(** The first part of the [try] block does not read the clock. *)
Lemma consume_ticks resp st st1 :
  consume json_loads resp st = (Return tt, st1) -> ticks st1 = ticks st.
Proof.
  destruct (completion resp) as [events |] eqn:Hevents.
  - rewrite (consume_run json_loads resp events st Hevents). intros H.
    apply (loop_session json_loads) in H. now destruct H as [_ ->].
  - unfold consume. rewrite Hevents. intros H. inversion H. reflexivity.
Qed.

(** X1. A call that returns always hands back a session id, and a
    non-empty one unless the envelope's own id is the empty string. *)
Theorem returned_session_id_is_set :
  forall (self : BedrockAgentCore) (query : pystr) (privilege : bool)
         (session_id : option pystr) (st : state) (req : agent_request)
         (resp : response) (text : pystr) (sid : option pystr),
    result (create_agent_request clock self query privilege session_id st)
      = Return req ->
    client self req = Return resp ->
    result (invoke_agent json_loads clock self query privilege session_id st)
      = Return (text, sid) ->
    exists s, sid = Some s /\ (s = [] -> sessionId resp = Some []).
Proof.
  intros self query privilege session_id st req resp text sid Hreq Hclient Hret.
  destruct (returned_call_concluded self query privilege session_id st req resp _
              Hreq Hclient Hret) as (st1 & _ & Hend).
  rewrite conclude_result in Hend.
  destruct (response_text st1); try discriminate.
  inversion Hend; subst. clear Hend.
  destruct (sessionId resp) as [top |].
  - exists top. split; [reflexivity |]. now intros ->.
  - destruct (negb (truthy_opt (returned_session_id st1)) && truthy_opt session_id)
      eqn:E.
    + apply andb_prop in E. destruct E as [_ E].
      destruct session_id as [[| c s0] |]; try discriminate.
      exists (c :: s0). split; [reflexivity | discriminate].
    + eexists. split; [reflexivity |]. intros H.
      now apply session_prefix_nonempty in H.
Qed.

(** X2. When the caller gives no session id and the envelope has none,
    the id handed back is generated from the clock reading after the one
    that produced the id sent in the request: the two ids are built at
    different times. *)
Theorem generated_ids_come_from_two_readings :
  forall (self : BedrockAgentCore) (query : pystr) (privilege : bool)
         (session_id : option pystr) (st : state) (req : agent_request)
         (resp : response) (text : pystr) (sid : option pystr),
    truthy_opt session_id = false ->
    sessionId resp = None ->
    result (create_agent_request clock self query privilege session_id st)
      = Return req ->
    client self req = Return resp ->
    result (invoke_agent json_loads clock self query privilege session_id st)
      = Return (text, sid) ->
    request_sessionId req = py "session-" ++ str_of_int (clock (ticks st)) /\
    sid = Some (py "session-" ++ str_of_int (clock (S (ticks st)))).
Proof.
  intros self query privilege session_id st req resp text sid
    Hnone Htop Hreq Hclient Hret.
  destruct (returned_call_concluded self query privilege session_id st req resp _
              Hreq Hclient Hret) as (st1 & Hc & Hend).
  apply consume_ticks in Hc.
  rewrite conclude_result, Htop, Hnone, andb_false_r, Hc in Hend.
  cbn [entered ticks] in Hend. rewrite Hnone in Hend.
  split.
  - destruct session_id as [[| c s] |]; try discriminate;
      cbn in Hreq; now inversion Hreq.
  - destruct (response_text st1); try discriminate. now inversion Hend.
Qed.

(** X3. The session id of the request is never empty: it is the caller's
    id when that is a non-empty string, and otherwise (no id, or the
    empty string) an id generated from the clock; the query is passed on
    as it is and tracing is always on. *)
Theorem request_session_id_never_empty :
  forall (self : BedrockAgentCore) (query : pystr) (privilege : bool)
         (session_id : option pystr) (st : state),
  exists req,
    result (create_agent_request clock self query privilege session_id st)
      = Return req /\
    request_sessionId req <> [] /\
    request_sessionId req =
      match session_id with
      | Some (c :: s) => c :: s
      | _ => py "session-" ++ str_of_int (clock (ticks st))
      end /\
    inputText req = query /\
    enableTrace req = true.
Proof.
  intros self query privilege session_id st.
  destruct session_id as [[| c s] |]; cbn; eexists;
    (split; [reflexivity |]); cbn; repeat split;
    try discriminate; apply session_prefix_nonempty.
Qed.

(** X4. An exception of the client that is not a [ClientError] goes
    through [invoke_agent] unchanged.  When it is an [Exception], the
    last record logged is the error of the second handler; when it is
    not (a [KeyboardInterrupt], a [SystemExit]), no handler catches it
    and nothing is logged for it: the last record is still the one of
    the query, logged before the [try]. *)
Theorem unexpected_client_failure_propagates :
  forall (self : BedrockAgentCore) (query : pystr) (privilege : bool)
         (session_id : option pystr) (st : state) (req : agent_request)
         (e : exn),
    result (create_agent_request clock self query privilege session_id st)
      = Return req ->
    client self req = Raise e ->
    (forall r, e <> ClientError r) ->
    result (invoke_agent json_loads clock self query privilege session_id st)
      = Raise e /\
    last_of (log (final (invoke_agent json_loads clock self query privilege
                           session_id st)))
      = Some (if is_Exception e
              then (ERROR, "Unexpected error invoking agent: "%string)
              else (INFO, "Query: "%string)).
Proof.
  intros self query privilege session_id st req e Hreq Hclient Hother.
  rewrite (invoke_agent_refused json_loads clock self query privilege
             session_id st req e Hreq Hclient).
  destruct e; try (split; [reflexivity | apply last_of_snoc]).
  now destruct (Hother r).
Qed.

(** X5. A [ClientError] whose response lacks the error entry, its code
    or its message is masked: the handler fails on the missing key, the
    call raises [KeyError] in place of the service error, and the handler
    logs nothing. *)
Theorem incomplete_client_error_is_masked :
  forall (self : BedrockAgentCore) (query : pystr) (privilege : bool)
         (session_id : option pystr) (st : state) (req : agent_request)
         (r : error_response),
    result (create_agent_request clock self query privilege session_id st)
      = Return req ->
    client self req = Raise (ClientError r) ->
    (Error r = None \/
     exists detail, Error r = Some detail /\
                    (Code detail = None \/ Message detail = None)) ->
    invoke_agent json_loads clock self query privilege session_id st
      = (Raise KeyError, entered session_id st).
Proof.
  intros self query privilege session_id st req r Hreq Hclient Hmissing.
  rewrite (invoke_agent_refused json_loads clock self query privilege
             session_id st req _ Hreq Hclient).
  unfold on_failure, error_field.
  destruct Hmissing as [-> | (detail & -> & [Hc | Hm])].
  - reflexivity.
  - rewrite Hc. reflexivity.
  - rewrite Hm. destruct (Code detail); reflexivity.
Qed.

(** X6. No failure that is an [Exception] leaves [invoke_agent]
    unlogged: when the call raises an [Exception] other than a
    [KeyError], the last record of the log is an error record.  (What is
    not an [Exception], a [KeyboardInterrupt] or a [SystemExit], passes
    both handlers.) *)
Theorem failures_are_logged :
  forall (self : BedrockAgentCore) (query : pystr) (privilege : bool)
         (session_id : option pystr) (st : state) (x : exn),
    result (invoke_agent json_loads clock self query privilege session_id st)
      = Raise x ->
    is_Exception x = true ->
    x <> KeyError ->
    exists head,
      last_of (log (final (invoke_agent json_loads clock self query privilege
                             session_id st)))
        = Some (ERROR, head).
Proof.
  intros self query privilege session_id st x Hx Hexc Hkey.
  destruct (create_agent_request_run clock self query privilege session_id st)
    as (req & st0 & Hrun & _).
  assert (Hreq : result (create_agent_request clock self query privilege
                           session_id st) = Return req) by now rewrite Hrun.
  rewrite (invoke_agent_unfold json_loads clock self query privilege session_id
             st req Hreq) in *.
  unfold try_except in *.
  match type of Hx with
  | context [match ?b with _ => _ end] => destruct b as [[e | v] st1]
  end; [| discriminate].
  unfold on_failure, error_field in *.
  destruct e as [| | | | | [[[[c |] [m |]] |]] | name | name]; cbn in Hx |- *;
    inversion Hx; subst; try congruence; try discriminate;
    eexists; apply last_of_snoc.
Qed.

(** X7. The text that [invoke_agent] returns has no white space at
    either end, so trimming it again changes nothing. *)
Theorem returned_text_is_trimmed :
  forall (self : BedrockAgentCore) (query : pystr) (privilege : bool)
         (session_id : option pystr) (st : state)
         (text : pystr) (sid : option pystr),
    result (invoke_agent json_loads clock self query privilege session_id st)
      = Return (text, sid) ->
    strip text = text /\
    (forall c rest, text = c :: rest -> py_isspace c = false) /\
    (forall c rest, rev text = c :: rest -> py_isspace c = false).
Proof.
  intros self query privilege session_id st text sid Hret.
  destruct (create_agent_request_run clock self query privilege session_id st)
    as (req & st0 & Hrun & _).
  assert (Hreq : result (create_agent_request clock self query privilege
                           session_id st) = Return req) by now rewrite Hrun.
  destruct (client self req) as [e | resp] eqn:Hclient.
  - rewrite (invoke_agent_refused json_loads clock self query privilege
               session_id st req e Hreq Hclient) in Hret.
    unfold on_failure, error_field in Hret.
    destruct e as [| | | | | [[[[c |] [m |]] |]] | name | name]; discriminate.
  - destruct (returned_call_concluded self query privilege session_id st req resp _
                Hreq Hclient Hret) as (st1 & _ & Hend).
    rewrite conclude_result in Hend.
    destruct (response_text st1) as [| | | | s | |]; try discriminate.
    inversion Hend; subst. clear Hend.
    destruct (strip_ends s) as [Hfirst Hlast].
    split; [now apply strip_fixed |]. split.
    + intros c rest E. now rewrite E in Hfirst.
    + intros c rest E. now rewrite E in Hlast.
Qed.

End MoreInvoker.

Section MoreStreams.

Variable json_loads : pystr -> outcome json.
Variable clock : nat -> Z.

(** The loop body on an event that carries nothing: it returns and the
    locals are as before. *)
Lemma handle_event_inert ev st :
  inert ev ->
  exists st',
    handle_event json_loads ev st = (Return tt, st') /\ same_locals st st'.
Proof.
  intros [Hraw Hchunk]. rewrite handle_event_unfold, handle_trace_unfold, Hraw.
  unfold handle_chunk.
  destruct (event_chunk ev) as [[bs sid] |]; cbn in Hchunk.
  - destruct Hchunk as [-> ->].
    destruct (event_trace ev) as [tr |];
      eexists; (split; [reflexivity |]); repeat split.
  - destruct (event_trace ev) as [tr |];
      eexists; (split; [reflexivity |]); repeat split.
Qed.

Lemma loop_without_inert pre ev post a b :
  inert ev ->
  same_locals a b ->
  related (for_each (pre ++ ev :: post) (handle_event json_loads) a)
          (for_each (pre ++ post) (handle_event json_loads) b).
Proof.
  intros Hev. revert a b.
  induction pre as [| x pre IH]; intros a b Hab.
  - cbn [app for_each].
    destruct (handle_event_inert ev a Hev) as (a' & Hrun & Haa').
    rewrite (bind_Return _ _ _ Hrun).
    apply tame_for_each; [intros y; apply tame_handle_event |].
    destruct Hab as (H1 & H2 & H3), Haa' as (H4 & H5 & H6).
    repeat split; congruence.
  - cbn [app for_each]. apply related_bind_gen.
    + apply tame_handle_event.
    + intros [] a' b' Hab'. now apply IH.
    + exact Hab.
Qed.

(** X8. An event from which the loop takes nothing (an event of an
    unknown kind, a trace without a raw-response payload, a chunk with
    neither bytes nor a session id) does not change what [invoke_agent]
    returns or raises: the outcome is that of the stream without it. *)
Theorem inert_event_is_ignored :
  forall (self : BedrockAgentCore) (query : pystr) (privilege : bool)
         (session_id : option pystr) (st : state)
         (req : agent_request) (resp : response)
         (pre : list event) (ev : event) (post : list event),
    result (create_agent_request clock self query privilege session_id st)
      = Return req ->
    client self req = Return resp ->
    completion resp = Some (pre ++ ev :: post) ->
    inert ev ->
    result (invoke_agent json_loads clock self query privilege session_id st) =
    result (invoke_agent json_loads clock
              (answering self (with_completion resp (pre ++ post)))
              query privilege session_id st).
Proof.
  intros self query privilege session_id st req resp pre ev post
    Hreq Hclient Hevents Hev.
  rewrite (invoke_agent_answered json_loads clock self query privilege
             session_id st req resp Hreq Hclient).
  rewrite (invoke_agent_answered json_loads clock
             (answering self (with_completion resp (pre ++ post)))
             query privilege session_id st req
             (with_completion resp (pre ++ post)) Hreq eq_refl).
  rewrite !try_on_failure_result.
  enough (Hsame : result (process_response json_loads clock resp session_id
                            (entered session_id st)) =
                  result (process_response json_loads clock
                            (with_completion resp (pre ++ post))
                            session_id (entered session_id st)))
    by now rewrite Hsame.
  unfold process_response.
  change (conclude clock (with_completion resp (pre ++ post)) session_id)
    with (conclude clock resp session_id).
  apply related_bind.
  - rewrite (consume_run json_loads resp _ _ Hevents).
    rewrite (consume_run json_loads (with_completion resp (pre ++ post)) _ _ eq_refl).
    apply loop_without_inert; auto using same_locals_refl.
  - intros []. apply tame_conclude.
Qed.

(** The chunk half of the loop body on a text that is a string: an empty
    text takes the decoded payload, any other text stays. *)
Lemma handle_chunk_text ev st st' s :
  handle_chunk ev st = (Return tt, st') ->
  response_text st = JStr s ->
  response_text st' =
    JStr match s with
         | [] => match chunk_text ev with Some t => t | None => [] end
         | _ => s
         end.
Proof.
  unfold handle_chunk, chunk_text.
  destruct (event_chunk ev) as [[bs sid] |].
  2:{ intros H Hs. inversion H; subst. rewrite Hs. now destruct s. }
  cbn [chunk_bytes chunk_sessionId]. intros H Hs.
  unfold bind at 1 in H. cbn [logger] in H.
  unfold bind at 1 in H. cbn [logger] in H.
  returned H. destruct a.
  assert (Hsid : response_text st' = response_text st0).
  { destruct sid as [x |]; cbn in H; inversion H; auto. }
  rewrite Hsid. clear H Hsid.
  destruct bs as [bs |].
  2:{ inversion Hrun; subst. cbn. rewrite Hs. now destruct s. }
  unfold decode in Hrun.
  destruct (bytes_decode bs) as [t |]; [| discriminate].
  unfold bind at 1 in Hrun. cbn [ret] in Hrun.
  unfold bind at 1 in Hrun. cbn [get_response_text response_text] in Hrun.
  rewrite Hs in Hrun.
  destruct s as [| c s]; cbn in Hrun; inversion Hrun; reflexivity.
Qed.

Lemma loop_chunk_text events st st' s :
  for_each events (handle_event json_loads) st = (Return tt, st') ->
  stream_messages json_loads events = [] ->
  response_text st = JStr s ->
  response_text st' =
    JStr match s with
         | [] => first_nonempty (collect chunk_text events)
         | _ => s
         end.
Proof.
  revert st s. induction events as [| ev events IH]; intros st s H Hnone Hs.
  - inversion H; subst. rewrite Hs. now destruct s.
  - unfold stream_messages in Hnone. cbn [flat_map] in Hnone.
    apply app_eq_nil in Hnone. destruct Hnone as [Hev Hrest].
    cbn [for_each] in H. returned H. destruct a.
    rewrite handle_event_unfold in Hrun. returned Hrun. destruct a.
    apply handle_trace_returns in Hrun0. destruct Hrun0 as (Htext & _).
    rewrite Hev in Htext. cbn [last_or last_of response_text] in Htext.
    unfold bind at 1 in Hrun. cbn [logger] in Hrun.
    eapply handle_chunk_text in Hrun; [| cbn [response_text]; rewrite Htext; exact Hs].
    rewrite (IH _ _ H Hrest Hrun). cbn [collect].
    destruct s as [| c s]; [| reflexivity].
    destruct (chunk_text ev) as [[| c t] |]; reflexivity.
Qed.

(** X9. When the stream carries no send-message tool invocation with a
    non-empty content, the text that [invoke_agent] returns is the first
    non-empty chunk text of the stream, trimmed, and the empty string
    when there is none: chunk text is used once, never concatenated. *)
Theorem text_without_tool_message :
  forall (self : BedrockAgentCore) (query : pystr) (privilege : bool)
         (session_id : option pystr) (st : state)
         (req : agent_request) (resp : response) (events : list event)
         (text : pystr) (sid : option pystr),
    result (create_agent_request clock self query privilege session_id st)
      = Return req ->
    client self req = Return resp ->
    completion resp = Some events ->
    stream_messages json_loads events = [] ->
    result (invoke_agent json_loads clock self query privilege session_id st)
      = Return (text, sid) ->
    text = strip (first_nonempty (collect chunk_text events)).
Proof.
  intros self query privilege session_id st req resp events text sid
    Hreq Hclient Hevents Hnone Hret.
  destruct (returned_call_ran_loop json_loads clock self query privilege session_id
              st req resp events _ Hreq Hclient Hevents Hret)
    as (st1 & Hloop & Hend & _).
  apply (loop_chunk_text events _ _ []) in Hloop; [| exact Hnone | reflexivity].
  rewrite conclude_result, Hloop in Hend. now inversion Hend.
Qed.

(** X10. A send-message tool invocation whose content is not a string (a
    number, a list, an object) is never returned as text: when it is the
    last message of the stream, [invoke_agent] raises. *)
Theorem non_text_message_raises :
  forall (self : BedrockAgentCore) (query : pystr) (privilege : bool)
         (session_id : option pystr) (st : state)
         (req : agent_request) (resp : response) (events : list event)
         (c : json),
    result (create_agent_request clock self query privilege session_id st)
      = Return req ->
    client self req = Return resp ->
    completion resp = Some events ->
    last_of (stream_messages json_loads events) = Some c ->
    (forall s, c <> JStr s) ->
    exists x,
      result (invoke_agent json_loads clock self query privilege session_id st)
        = Raise x.
Proof.
  intros self query privilege session_id st req resp events c
    Hreq Hclient Hevents Hlast Hc.
  destruct (result (invoke_agent json_loads clock self query privilege
                      session_id st)) as [x | v] eqn:Hret; [now exists x |].
  exfalso.
  destruct (returned_call_ran_loop json_loads clock self query privilege session_id
              st req resp events _ Hreq Hclient Hevents Hret)
    as (st1 & Hloop & Hend & _).
  apply loop_text in Hloop. destruct Hloop as (Htext & _).
  rewrite conclude_result, (Htext c Hlast) in Hend.
  destruct c; try discriminate. now apply (Hc s).
Qed.

End MoreStreams.

(** X11. An agent core built by [__init__] talks to the region given by
    the caller when that is a non-empty string and to the configured
    region otherwise, and its requests go to the configured agent and
    alias: the privileged pair for [privilege = True], the limited pair
    otherwise. *)
Theorem init_routes_to_config :
  forall (clock : nat -> Z) (config : Config)
         (boto3_client : pystr -> outcome (agent_request -> outcome response))
         (region_arg : option pystr) (st st1 : state) (self : BedrockAgentCore)
         (query : pystr) (privilege : bool) (session_id : option pystr)
         (st2 : state),
    init config boto3_client region_arg st = (Return self, st1) ->
    region self =
      match region_arg with
      | Some (c :: s) => c :: s
      | _ => config_region config
      end /\
    boto3_client (region self) = Return (client self) /\
    exists req,
      result (create_agent_request clock self query privilege session_id st2)
        = Return req /\
      agentId req =
        (if privilege then oscar_privileged_bedrock_agent_id config
         else oscar_limited_bedrock_agent_id config) /\
      agentAliasId req =
        (if privilege then oscar_privileged_bedrock_agent_alias_id config
         else oscar_limited_bedrock_agent_alias_id config).
Proof.
  intros clock config boto3_client region_arg st st1 self query privilege
    session_id st2 Hinit.
  unfold init, bind in Hinit.
  destruct (boto3_client _) as [e | runtime] eqn:Hclient; [discriminate |].
  cbn in Hinit. inversion Hinit; subst self. clear Hinit.
  cbn [region client]. repeat split; [exact Hclient |].
  destruct (create_agent_request_run clock
              {| region := match region_arg with
                           | Some (c :: s) => c :: s
                           | _ => config_region config
                           end;
                 client := runtime;
                 privileged_agent_id := oscar_privileged_bedrock_agent_id config;
                 privileged_agent_alias_id :=
                   oscar_privileged_bedrock_agent_alias_id config;
                 limited_agent_id := oscar_limited_bedrock_agent_id config;
                 limited_agent_alias_id :=
                   oscar_limited_bedrock_agent_alias_id config;
                 timeout := agent_timeout config;
                 max_retries := agent_max_retries config |}
              query privilege session_id st2)
    as (req & st3 & Hrun & _ & _ & Hid & Halias).
  exists req. rewrite Hrun. auto.
Qed.

(** ** Examples for the further properties of the invoker *)

Lemma returned_session_id_is_set_witness :
  result (invoke_agent sample_loads sample_clock
            (sample_core (stream [chunk_event (pybytes "hi") None] None))
            (py "status of the release") false None start)
    = Return (py "hi", Some (py "session-1700000001")) /\
  exists s,
    Some (py "session-1700000001") = Some s /\
    (s = [] -> @None pystr = Some []).
Proof.
  split; [reflexivity |].
  exact (returned_session_id_is_set sample_loads sample_clock
           (sample_core (stream [chunk_event (pybytes "hi") None] None))
           (py "status of the release") false None start _ _
           (py "hi") (Some (py "session-1700000001"))
           eq_refl eq_refl eq_refl).
Defined.

Lemma generated_ids_come_from_two_readings_witness :
  (exists req,
     result (create_agent_request sample_clock
               (sample_core (stream [chunk_event (pybytes "hi") None] None))
               (py "status of the release") false None start) = Return req /\
     request_sessionId req = py "session-1700000000") /\
  result (invoke_agent sample_loads sample_clock
            (sample_core (stream [chunk_event (pybytes "hi") None] None))
            (py "status of the release") false None start)
    = Return (py "hi", Some (py "session-1700000001")).
Proof.
  pose proof (generated_ids_come_from_two_readings sample_loads sample_clock
                (sample_core (stream [chunk_event (pybytes "hi") None] None))
                (py "status of the release") false None start _
                {| completion := Some [chunk_event (pybytes "hi") None];
                   sessionId := None |}
                (py "hi") (Some (py "session-1700000001"))
                eq_refl eq_refl eq_refl eq_refl eq_refl) as [Hreq Hsid].
  split; [eexists; split; [reflexivity | exact Hreq] | reflexivity].
Defined.

Lemma unexpected_client_failure_propagates_witness :
  result (invoke_agent sample_loads sample_clock
            (sample_core (Raise (OtherException "EndpointConnectionError")))
            (py "status of the release") false None start)
    = Raise (OtherException "EndpointConnectionError") /\
  last_of (log (final (invoke_agent sample_loads sample_clock
            (sample_core (Raise (OtherException "EndpointConnectionError")))
            (py "status of the release") false None start)))
    = Some (ERROR, "Unexpected error invoking agent: "%string).
Proof.
  refine (unexpected_client_failure_propagates sample_loads sample_clock
            (sample_core (Raise (OtherException "EndpointConnectionError")))
            (py "status of the release") false None start _ _
            eq_refl eq_refl _).
  intros r H. discriminate H.
Defined.

Lemma incomplete_client_error_is_masked_witness :
  result (invoke_agent sample_loads sample_clock
            (sample_core (Raise (ClientError no_message)))
            (py "status of the release") false None start)
    = Raise KeyError.
Proof.
  refine (f_equal result
            (incomplete_client_error_is_masked sample_loads sample_clock
               (sample_core (Raise (ClientError no_message)))
               (py "status of the release") false None start _ _
               eq_refl eq_refl _)).
  right. exists {| Code := Some (py "ThrottlingException"); Message := None |}.
  split; [reflexivity | right; reflexivity].
Defined.

Lemma failures_are_logged_witness :
  exists head,
    last_of (log (final (invoke_agent sample_loads sample_clock
              (sample_core (stream [chunk_event [xff] None] None))
              (py "status of the release") false None start)))
      = Some (ERROR, head).
Proof.
  refine (failures_are_logged sample_loads sample_clock
            (sample_core (stream [chunk_event [xff] None] None))
            (py "status of the release") false None start
            UnicodeDecodeError eq_refl eq_refl _).
  discriminate.
Defined.

Lemma returned_text_is_trimmed_witness :
  result (invoke_agent sample_loads sample_clock
            (sample_core (stream [chunk_event (pybytes "  padded answer  ") None]
                            None))
            (py "status of the release") false (Some (py "abc")) start)
    = Return (py "padded answer", Some (py "abc")) /\
  strip (py "padded answer") = py "padded answer".
Proof.
  split; [reflexivity |].
  exact (proj1 (returned_text_is_trimmed sample_loads sample_clock
           (sample_core (stream [chunk_event (pybytes "  padded answer  ") None]
                           None))
           (py "status of the release") false (Some (py "abc")) start
           (py "padded answer") (Some (py "abc")) eq_refl)).
Defined.

Lemma inert_event_is_ignored_witness :
  result (invoke_agent sample_loads sample_clock
            (sample_core (stream [ trace_event text_hello; unknown_event;
                                   chunk_event (pybytes "chunk") None ] None))
            (py "status of the release") false (Some (py "abc")) start) =
  result (invoke_agent sample_loads sample_clock
            (sample_core (stream [ trace_event text_hello;
                                   chunk_event (pybytes "chunk") None ] None))
            (py "status of the release") false (Some (py "abc")) start).
Proof.
  refine (inert_event_is_ignored sample_loads sample_clock
            (sample_core (stream [ trace_event text_hello; unknown_event;
                                   chunk_event (pybytes "chunk") None ] None))
            (py "status of the release") false (Some (py "abc")) start _ _
            [trace_event text_hello] unknown_event
            [chunk_event (pybytes "chunk") None]
            eq_refl eq_refl eq_refl _).
  split; [reflexivity | exact I].
Defined.

Lemma text_without_tool_message_witness :
  result (invoke_agent sample_loads sample_clock
            (sample_core (stream [ chunk_event [] None;
                                   trace_event text_broken;
                                   chunk_event (pybytes " first ") None;
                                   chunk_event (pybytes "second") None ] None))
            (py "status of the release") false (Some (py "abc")) start)
    = Return (py "first", Some (py "abc")) /\
  py "first" =
  strip (first_nonempty
           (collect chunk_text
              [ chunk_event [] None;
                trace_event text_broken;
                chunk_event (pybytes " first ") None;
                chunk_event (pybytes "second") None ])).
Proof.
  split; [reflexivity |].
  exact (text_without_tool_message sample_loads sample_clock
           (sample_core (stream [ chunk_event [] None;
                                  trace_event text_broken;
                                  chunk_event (pybytes " first ") None;
                                  chunk_event (pybytes "second") None ] None))
           (py "status of the release") false (Some (py "abc")) start _ _ _
           (py "first") (Some (py "abc"))
           eq_refl eq_refl eq_refl eq_refl eq_refl).
Defined.

Lemma non_text_message_raises_witness :
  result (invoke_agent more_loads sample_clock
            (sample_core (stream [ trace_event text_hello;
                                   trace_event text_number ] None))
            (py "status of the release") false (Some (py "abc")) start)
    = Raise TypeError /\
  exists x,
    result (invoke_agent more_loads sample_clock
              (sample_core (stream [ trace_event text_hello;
                                     trace_event text_number ] None))
              (py "status of the release") false (Some (py "abc")) start)
      = Raise x.
Proof.
  split; [reflexivity |].
  refine (non_text_message_raises more_loads sample_clock
            (sample_core (stream [ trace_event text_hello;
                                   trace_event text_number ] None))
            (py "status of the release") false (Some (py "abc")) start _ _ _
            (JInt 42) eq_refl eq_refl eq_refl eq_refl _).
  intros s H. discriminate H.
Defined.

Lemma init_routes_to_config_witness :
  exists self st1,
    init sample_config sample_boto3 (Some (py "")) start = (Return self, st1) /\
    region self = py "us-east-1" /\
    exists req,
      result (create_agent_request sample_clock self (py "status of the release")
                true None start) = Return req /\
      agentId req = py "PRIVAGENT1" /\
      agentAliasId req = py "PRIVALIAS1".
Proof.
  do 2 eexists. split; [cbv; reflexivity |].
  pose proof (init_routes_to_config sample_clock sample_config sample_boto3
                (Some (py "")) start _ _ (py "status of the release") true None
                start eq_refl) as (Hregion & _ & Hreq).
  split; [exact Hregion | exact Hreq].
Defined.

Lemma session_id_resolution_witness :
  result (invoke_agent sample_loads sample_clock
            (sample_core (stream [ chunk_event (pybytes "hi") (Some (py "x"));
                                   chunk_event (pybytes "there") (Some (py ""))
                                 ] None))
            (py "status of the release") false (Some (py "abc")) start)
    = Return (py "hi", Some (py "abc")) /\
  Some (py "abc") =
  (if negb (truthy_opt
             (last_of (collect chunk_session
                         [ chunk_event (pybytes "hi") (Some (py "x"));
                           chunk_event (pybytes "there") (Some (py "")) ])))
      && truthy_opt (Some (py "abc"))
   then Some (py "abc")
   else Some (py "session-" ++ str_of_int (sample_clock 0))).
Proof.
  split; [reflexivity |].
  exact (session_id_resolution sample_loads sample_clock
           (sample_core (stream [ chunk_event (pybytes "hi") (Some (py "x"));
                                  chunk_event (pybytes "there") (Some (py ""))
                                ] None))
           (py "status of the release") false (Some (py "abc")) start _ _ _
           (py "hi") (Some (py "abc"))
           eq_refl eq_refl eq_refl eq_refl).
Defined.

Lemma only_first_chunk_is_kept_witness :
  exists sid,
    result (invoke_agent sample_loads sample_clock
              (sample_core (stream [ chunk_event (pybytes "one ") None;
                                     chunk_event (pybytes "two ") None;
                                     chunk_event (pybytes "three") None ] None))
              (py "status of the release") false (Some (py "abc")) start)
      = Return (strip (hd [] [py "one "; py "two "; py "three"]), sid).
Proof.
  refine (only_first_chunk_is_kept sample_loads sample_clock
            (sample_core (stream [ chunk_event (pybytes "one ") None;
                                   chunk_event (pybytes "two ") None;
                                   chunk_event (pybytes "three") None ] None))
            (py "status of the release") false (Some (py "abc")) start _ _ _
            [py "one "; py "two "; py "three"] eq_refl eq_refl eq_refl _).
  repeat constructor;
    (eexists; eexists; repeat split; try reflexivity; discriminate).
Defined.

(** * SSM parameter paths *)

Lemma pystr_eqb_eq a b : pystr_eqb a b = true -> a = b.
Proof.
  revert b. induction a as [| x a IH]; destruct b as [| y b]; cbn;
    try discriminate; [reflexivity |].
  intros H. apply andb_prop in H. destruct H as [Hx Hab].
  apply N.eqb_eq in Hx. f_equal; auto.
Qed.

Lemma pystr_eqb_refl a : pystr_eqb a a = true.
Proof. induction a as [| x a IH]; cbn; [reflexivity |]. now rewrite N.eqb_refl. Qed.

(** Of two strings that open the same string, one opens the other. *)
Lemma app_eq_starts_with (a x b y : pystr) :
  a ++ x = b ++ y -> starts_with a b = true \/ starts_with b a = true.
Proof.
  revert b. induction a as [| c a IH]; intros b H.
  - now left.
  - destruct b as [| d b]; [now right |].
    cbn in H. inversion H; subst d.
    destruct (IH b H2) as [Hab | Hba]; [left | right]; cbn;
      now rewrite N.eqb_refl.
Qed.

Lemma prefix_free_app l a x b y :
  prefix_free l = true -> In a l -> In b l ->
  a ++ x = b ++ y -> a = b /\ x = y.
Proof.
  intros Hfree Ha Hb H. unfold prefix_free in Hfree.
  rewrite forallb_forall in Hfree.
  assert (Hab : a = b).
  { destruct (app_eq_starts_with a x b y H) as [Hs | Hs].
    - pose proof (Hfree a Ha) as Hrow. rewrite forallb_forall in Hrow.
      specialize (Hrow b Hb). rewrite Hs in Hrow. now apply pystr_eqb_eq.
    - pose proof (Hfree b Hb) as Hrow. rewrite forallb_forall in Hrow.
      specialize (Hrow a Ha). rewrite Hs in Hrow. symmetry. now apply pystr_eqb_eq. }
  subst b. split; [reflexivity |]. now apply app_inv_head in H.
Qed.

Lemma param_paths_suffixes env :
  param_paths (get_ssm_param_paths env) =
  map (fun suffix => py "/oscar/" ++ env ++ suffix) param_suffixes.
Proof. reflexivity. Qed.

Lemma reversed_suffixes_prefix_free :
  prefix_free (map (@rev N) param_suffixes) = true.
Proof. vm_compute. reflexivity. Qed.

(** Equal paths have the same environment and the same suffix. *)
Lemma param_path_inj env1 env2 s1 s2 :
  In s1 param_suffixes -> In s2 param_suffixes ->
  py "/oscar/" ++ env1 ++ s1 = py "/oscar/" ++ env2 ++ s2 ->
  env1 = env2 /\ s1 = s2.
Proof.
  intros H1 H2 H. apply app_inv_head in H.
  apply (f_equal (@rev N)) in H. rewrite !rev_app_distr in H.
  destruct (prefix_free_app _ _ _ _ _ reversed_suffixes_prefix_free
              (in_map _ _ _ H1) (in_map _ _ _ H2) H) as [Hs He].
  split.
  - rewrite <- (rev_involutive env1), He. apply rev_involutive.
  - rewrite <- (rev_involutive s1), Hs. apply rev_involutive.
Qed.

Lemma param_suffixes_NoDup : NoDup param_suffixes.
Proof.
  unfold param_suffixes.
  repeat (constructor; [cbn; intros H; repeat destruct H as [H | H];
                        try discriminate H; exact H |]).
  constructor.
Qed.

(** X14. The twelve parameter paths of an environment are pairwise
    distinct, and a path of one environment is never a path of another:
    whatever the environment names are, two agents or two environments
    never share a parameter. *)
Theorem ssm_param_paths_never_collide :
  forall env : pystr,
    NoDup (param_paths (get_ssm_param_paths env)) /\
    forall (other : pystr) (path : pystr),
      In path (param_paths (get_ssm_param_paths env)) ->
      In path (param_paths (get_ssm_param_paths other)) ->
      env = other.
Proof.
  intros env. rewrite param_paths_suffixes. split.
  - assert (H : forall l, NoDup l -> incl l param_suffixes ->
                NoDup (map (fun suffix => py "/oscar/" ++ env ++ suffix) l)).
    { induction l as [| s l IH]; intros Hnd Hincl; cbn; [constructor |].
      inversion Hnd; subst. constructor.
      - intros Hin. apply in_map_iff in Hin. destruct Hin as (s' & Heq & Hin).
        destruct (param_path_inj env env s' s) as [_ ->]; auto.
        + apply Hincl. now right.
        + apply Hincl. now left.
      - apply IH; [assumption |]. intros x Hx. apply Hincl. now right. }
    apply H; [apply param_suffixes_NoDup | apply incl_refl].
  - intros other path H1 H2. rewrite param_paths_suffixes in H2.
    apply in_map_iff in H1. destruct H1 as (s1 & <- & Hs1).
    apply in_map_iff in H2. destruct H2 as (s2 & Heq & Hs2).
    symmetry in Heq.
    now destruct (param_path_inj env other s1 s2 Hs1 Hs2 Heq).
Qed.

(** * The clean-up of a clone *)

(** Induction on a tree, with the hypothesis for every entry of a
    directory. *)
Lemma node_nested_ind (P : node -> Prop) :
  P File ->
  (forall entries, Forall (fun e => P (snd e)) entries -> P (Dir entries)) ->
  forall n, P n.
Proof.
  intros HF HD. fix IH 1. intros [| entries].
  - exact HF.
  - apply HD. induction entries as [| [name child] entries IHentries].
    + constructor.
    + constructor; [apply IH | exact IHentries].
Qed.

Section CleanupFacts.

Variable lower : pystr -> pystr.

Lemma sweep_entries_nil : sweep_entries lower [] = [].
Proof. reflexivity. Qed.

Lemma sweep_entries_file name rest :
  sweep_entries lower ((name, File) :: rest) =
  if removed_file lower name then sweep_entries lower rest
  else (name, File) :: sweep_entries lower rest.
Proof. unfold sweep_entries. cbn. now destruct (removed_file lower name). Qed.

Lemma sweep_entries_dir name sub rest :
  sweep_entries lower ((name, Dir sub) :: rest) =
  match sweep_entries lower sub with
  | [] => sweep_entries lower rest
  | kept => (name, Dir kept) :: sweep_entries lower rest
  end.
Proof.
  unfold sweep_entries. cbn [sweep].
  match goal with
  | |- context [match ?f sub with _ => _ end] => now destruct (f sub)
  end.
Qed.

(** The files and the directories that the second pass leaves in one
    directory. *)
Lemma sweep_entries_In_file name entries :
  In (name, File) (sweep_entries lower entries) <->
  In (name, File) entries /\ removed_file lower name = false.
Proof.
  induction entries as [| [name' [| sub]] entries IH].
  - cbn. tauto.
  - rewrite sweep_entries_file.
    destruct (removed_file lower name') eqn:E; cbn [In]; rewrite IH; split.
    + intros [H1 H2]. auto.
    + intros [[H | H] H2]; [inversion H; subst; congruence | auto].
    + intros [H | [H1 H2]]; [inversion H; subst; auto | auto].
    + intros [[H | H] H2]; auto.
  - rewrite sweep_entries_dir.
    destruct (sweep_entries lower sub); cbn [In]; rewrite IH; split.
    + intros [H1 H2]. auto.
    + intros [[H | H] H2]; [discriminate | auto].
    + intros [H | [H1 H2]]; [discriminate | auto].
    + intros [[H | H] H2]; [discriminate | auto].
Qed.

Lemma sweep_entries_In_dir name kept entries :
  In (name, Dir kept) (sweep_entries lower entries) <->
  exists sub,
    In (name, Dir sub) entries /\ kept = sweep_entries lower sub /\ kept <> [].
Proof.
  induction entries as [| [name' [| sub]] entries IH].
  - cbn. split; [tauto | intros (sub & [] & _)].
  - rewrite sweep_entries_file.
    destruct (removed_file lower name'); cbn [In]; rewrite IH; split.
    + intros (s & H & Hk). exists s. auto.
    + intros (s & [H | H] & Hk); [discriminate | exists s; auto].
    + intros [H | (s & H & Hk)]; [discriminate | exists s; auto].
    + intros (s & [H | H] & Hk); [discriminate | right; exists s; auto].
  - rewrite sweep_entries_dir.
    destruct (sweep_entries lower sub) as [| k ks] eqn:E; cbn [In]; rewrite IH; split.
    + intros (s & H & Hk). exists s. auto.
    + intros (s & [H | H] & Hk1 & Hk2); [| exists s; auto].
      inversion H; subst. congruence.
    + intros [H | (s & H & Hk)]; [| exists s; auto].
      inversion H; subst. exists sub. repeat split; auto. discriminate.
    + intros (s & [H | H] & Hk1 & Hk2); [| right; exists s; auto].
      inversion H; subst. left. congruence.
Qed.

Lemma has_file_nil path : has_file path [] = false.
Proof. now destruct path. Qed.

(** The files that the second pass leaves below a directory. *)
Lemma has_file_sweep path entries :
  has_file path (sweep_entries lower entries) = true <->
  has_file path entries = true /\ removed_file lower (last path []) = false.
Proof.
  revert entries. induction path as [| name rest IH]; intros entries.
  - cbn. split; [discriminate | intros [H _]; discriminate].
  - cbn [has_file]. rewrite !existsb_exists. split.
    + intros ([name' child] & Hin & Hmatch). cbn [fst snd] in Hmatch.
      apply andb_prop in Hmatch. destruct Hmatch as [Hname Hrest].
      apply pystr_eqb_eq in Hname. subst name'.
      destruct rest as [| next rest'].
      * destruct child; [| discriminate].
        apply sweep_entries_In_file in Hin. destruct Hin as [Hin Hkeep].
        split; [| exact Hkeep].
        exists (name, File). cbn. now rewrite pystr_eqb_refl.
      * destruct child as [| kept]; [discriminate |].
        apply sweep_entries_In_dir in Hin. destruct Hin as (sub & Hin & -> & _).
        apply IH in Hrest. destruct Hrest as [Hsub Hkeep].
        split; [| exact Hkeep].
        exists (name, Dir sub). cbn [fst snd]. now rewrite pystr_eqb_refl.
    + intros [([name' child] & Hin & Hmatch) Hkeep]. cbn [fst snd] in Hmatch.
      apply andb_prop in Hmatch. destruct Hmatch as [Hname Hrest].
      apply pystr_eqb_eq in Hname. subst name'.
      destruct rest as [| next rest'].
      * destruct child; [| discriminate].
        exists (name, File). split.
        -- apply sweep_entries_In_file. auto.
        -- cbn. now rewrite pystr_eqb_refl.
      * destruct child as [| sub]; [discriminate |].
        assert (Hsub : has_file (next :: rest') (sweep_entries lower sub) = true)
          by (apply IH; auto).
        exists (name, Dir (sweep_entries lower sub)). split.
        -- apply sweep_entries_In_dir. exists sub. repeat split; auto.
           intros Hnil. rewrite Hnil, has_file_nil in Hsub. discriminate.
        -- cbn [fst snd]. now rewrite pystr_eqb_refl.
Qed.

(** The files that the first pass leaves. *)
Lemma has_file_remove_excluded_dirs path repo :
  has_file path (remove_excluded_dirs repo) = true <->
  has_file path repo = true /\ outside_excluded_dirs path = true.
Proof.
  unfold remove_excluded_dirs. destruct path as [| name rest].
  - cbn. split; [discriminate | intros [H _]; discriminate].
  - cbn [has_file]. rewrite !existsb_exists. split.
    + intros ([name' child] & Hin & Hmatch). apply filter_In in Hin.
      destruct Hin as [Hin Hkept]. cbn [fst snd] in Hmatch, Hkept.
      split; [exists (name', child); auto |].
      apply andb_prop in Hmatch. destruct Hmatch as [Hname Hrest].
      apply pystr_eqb_eq in Hname. subst name'.
      destruct rest as [| next rest']; [reflexivity |].
      destruct child; [discriminate |]. exact Hkept.
    + intros [([name' child] & Hin & Hmatch) Hout]. cbn [fst snd] in Hmatch.
      exists (name', child). split; [| exact Hmatch].
      apply filter_In. split; [exact Hin |]. cbn [fst snd].
      apply andb_prop in Hmatch. destruct Hmatch as [Hname Hrest].
      apply pystr_eqb_eq in Hname. subst name'.
      destruct rest as [| next rest'].
      * now destruct child.
      * destruct child; [discriminate |]. exact Hout.
Qed.

End CleanupFacts.

Section CleanupShape.

Variable lower : pystr -> pystr.

Lemma no_empty_dir_file name rest :
  no_empty_dir (Dir ((name, File) :: rest)) = no_empty_dir (Dir rest).
Proof. reflexivity. Qed.

Lemma no_empty_dir_dir name sub rest :
  no_empty_dir (Dir ((name, Dir sub) :: rest)) =
  match sub with
  | [] => false
  | _ => no_empty_dir (Dir sub)
  end && no_empty_dir (Dir rest).
Proof. reflexivity. Qed.

(** The second pass leaves no empty directory below the one it is run
    on, and running it again changes nothing. *)
Lemma sweep_entries_shape n :
  match n with
  | File => True
  | Dir entries =>
    no_empty_dir (Dir (sweep_entries lower entries)) = true /\
    sweep_entries lower (sweep_entries lower entries) = sweep_entries lower entries
  end.
Proof.
  induction n as [| entries IH] using node_nested_ind; [exact I |].
  induction IH as [| [name child] entries Hchild _ IHentries].
  - split; reflexivity.
  - destruct IHentries as [Hne Hidem]. cbn [snd] in Hchild.
    destruct child as [| sub].
    + rewrite sweep_entries_file.
      destruct (removed_file lower name) eqn:E; [now split |].
      rewrite no_empty_dir_file, sweep_entries_file, E, Hidem. now split.
    + destruct Hchild as [Hsub_ne Hsub_idem].
      rewrite sweep_entries_dir.
      destruct (sweep_entries lower sub) as [| k ks] eqn:Ek; [now split |].
      rewrite no_empty_dir_dir, sweep_entries_dir, Hsub_idem, Hidem.
      rewrite Hsub_ne, Hne. now split.
Qed.

Lemma sweep_entries_idempotent entries :
  sweep_entries lower (sweep_entries lower entries) = sweep_entries lower entries.
Proof. apply (sweep_entries_shape (Dir entries)). Qed.

(** What the second pass leaves directly under the root passes the test
    of the first pass when the entries it started from did. *)
Lemma remove_excluded_dirs_sweep repo :
  remove_excluded_dirs (sweep_entries lower (remove_excluded_dirs repo)) =
  sweep_entries lower (remove_excluded_dirs repo).
Proof.
  unfold remove_excluded_dirs at 1.
  apply forallb_filter_id. apply forallb_forall. intros [name child] Hin.
  cbn [fst snd]. destruct child as [| kept]; [reflexivity |].
  apply sweep_entries_In_dir in Hin. destruct Hin as (sub & Hin & _).
  unfold remove_excluded_dirs in Hin. apply filter_In in Hin.
  now destruct Hin as [_ Hkept].
Qed.

End CleanupShape.

(** X15. Every file left by [cleanup_non_markdown_files] was in the
    clone, has a name that ends in [.md] (in lower case), a lower-cased
    name that is neither in the excluded set nor starts with [admins],
    and does not lie below an excluded directory of the root. *)
Theorem cleanup_leaves_only_wanted_markdown :
  forall (lower : pystr -> pystr) (repo : list (pystr * node))
         (path : list pystr),
    has_file path (cleanup_non_markdown_files lower repo) = true ->
    has_file path repo = true /\
    ends_with (last path []) (py ".md") = true /\
    mem (lower (last path [])) excluded_files = false /\
    starts_with (py "admins") (lower (last path [])) = false /\
    outside_excluded_dirs path = true.
Proof.
  intros lower repo path H. unfold cleanup_non_markdown_files in H.
  apply has_file_sweep in H. destruct H as [H Hkeep].
  apply has_file_remove_excluded_dirs in H. destruct H as [H Hout].
  unfold removed_file in Hkeep.
  apply orb_false_elim in Hkeep. destruct Hkeep as [Hkeep Hadmins].
  apply orb_false_elim in Hkeep. destruct Hkeep as [Hmd Hexcl].
  apply negb_false_iff in Hmd. auto.
Qed.

(** X16. [cleanup_non_markdown_files] loses no wanted file: a file whose
    name passes the test of the second pass stays at its path, unless
    the path starts in an excluded directory of the root.  The excluded
    directory names count at the root only: below it, [node_modules] or
    [build] are directories like any other. *)
Theorem cleanup_keeps_wanted_markdown :
  forall (lower : pystr -> pystr) (repo : list (pystr * node))
         (path : list pystr),
    has_file path repo = true ->
    removed_file lower (last path []) = false ->
    outside_excluded_dirs path = true ->
    has_file path (cleanup_non_markdown_files lower repo) = true.
Proof.
  intros lower repo path H Hkeep Hout. unfold cleanup_non_markdown_files.
  apply has_file_sweep. split; [| exact Hkeep].
  apply has_file_remove_excluded_dirs. auto.
Qed.

(** X17. After [cleanup_non_markdown_files] no directory below the root
    of the clone is empty: a directory that held nothing to keep is gone
    with all the directories that held nothing else. *)
Theorem cleanup_leaves_no_empty_directory :
  forall (lower : pystr -> pystr) (repo : list (pystr * node)),
    no_empty_dir (Dir (cleanup_non_markdown_files lower repo)) = true.
Proof.
  intros lower repo. unfold cleanup_non_markdown_files.
  apply (sweep_entries_shape lower (Dir (remove_excluded_dirs repo))).
Qed.

(** X18. [cleanup_non_markdown_files] is idempotent: a second run on a
    cleaned clone removes nothing. *)
Theorem cleanup_is_idempotent :
  forall (lower : pystr -> pystr) (repo : list (pystr * node)),
    cleanup_non_markdown_files lower (cleanup_non_markdown_files lower repo) =
    cleanup_non_markdown_files lower repo.
Proof.
  intros lower repo. unfold cleanup_non_markdown_files.
  rewrite remove_excluded_dirs_sweep. apply sweep_entries_idempotent.
Qed.

Lemma cleanup_leaves_only_wanted_markdown_witness :
  has_file [py "docs"; py "guide.md"]
    (cleanup_non_markdown_files ascii_lower sample_clone) = true /\
  has_file [py "docs"; py "guide.md"] sample_clone = true /\
  ends_with (py "guide.md") (py ".md") = true /\
  mem (ascii_lower (py "guide.md")) excluded_files = false /\
  starts_with (py "admins") (ascii_lower (py "guide.md")) = false /\
  outside_excluded_dirs [py "docs"; py "guide.md"] = true.
Proof.
  split; [reflexivity |].
  exact (cleanup_leaves_only_wanted_markdown ascii_lower sample_clone
           [py "docs"; py "guide.md"] eq_refl).
Defined.

Lemma cleanup_keeps_wanted_markdown_witness :
  has_file [py "docs"; py "node_modules"; py "dep.md"]
    (cleanup_non_markdown_files ascii_lower sample_clone) = true.
Proof.
  exact (cleanup_keeps_wanted_markdown ascii_lower sample_clone
           [py "docs"; py "node_modules"; py "dep.md"] eq_refl eq_refl eq_refl).
Defined.

(** * The documentation uploader *)

Import Uploader.

Lemma split_on_nonempty (sep : N) (s : pystr) : split_on sep s <> [].
Proof.
  induction s as [|c s IH]; cbn; [discriminate|].
  destruct (c =? sep)%N; [discriminate|].
  destruct (split_on sep s); discriminate.
Qed.

Lemma split_on_without (sep : N) (s : pystr) :
  forallb (fun c => negb (c =? sep)%N) s = true -> split_on sep s = [s].
Proof.
  induction s as [|c s IH]; cbn; [reflexivity|].
  intros H. apply andb_true_iff in H as [Hc Hs].
  apply negb_true_iff in Hc. rewrite Hc, (IH Hs). reflexivity.
Qed.

Lemma split_on_two (sep : N) (a b : pystr) :
  exists p q l, split_on sep (a ++ sep :: b) = p :: q :: l.
Proof.
  induction a as [|c a (p & q & l & IH)]; cbn [app split_on].
  - rewrite N.eqb_refl. destruct (split_on sep b) as [|q l] eqn:E.
    + now apply split_on_nonempty in E.
    + now exists [], q, l.
  - rewrite IH. destruct (c =? sep)%N.
    + now exists [], p, (q :: l).
    + now exists (c :: p), q, l.
Qed.

Lemma last_split_on (sep : N) (a b : pystr) :
  last (split_on sep (a ++ sep :: b)) [] = last (split_on sep b) [].
Proof.
  induction a as [|c a IH]; cbn [app split_on].
  - rewrite N.eqb_refl. destruct (split_on sep b) as [|q l] eqn:E.
    + now apply split_on_nonempty in E.
    + reflexivity.
  - destruct (split_on_two sep a b) as (p & q & l & E).
    rewrite E in *. destruct (c =? sep)%N; exact IH.
Qed.

Lemma repo_name_is_last_segment (owner name : pystr) :
  forallb (fun c => negb (c =? 47)%N) name = true ->
  split_repo (JStr (owner ++ py "/" ++ name))
  = Done (owner ++ py "/" ++ name, name).
Proof.
  intros H. unfold split_repo. change (py "/" ++ name) with (47%N :: name).
  now rewrite last_split_on, (split_on_without _ _ H).
Qed.

Section UploaderFacts.

Variable W : Type.
Variable host : Host W.

Lemma ask_run {A} (c : call) (operation : W -> attempt A * W) (st : run W) :
  ask c operation st
  = (fst (operation (outside st)),
     {| outside := snd (operation (outside st));
        calls := calls st ++ [(c, is_done (fst (operation (outside st))))];
        records := records st;
        temp_dir := temp_dir st |}).
Proof. unfold ask. now destruct (operation (outside st)). Qed.

(** One repository: the local [temp_dir] is untouched, no sync is made,
    and a clone that returns made its two calls, both with success. *)
Lemma clone_repository_run (repo : json) (temp : pystr) (st : run W) :
  exists new,
    calls (snd (clone_repository host repo temp st)) = calls st ++ new
    /\ temp_dir (snd (clone_repository host repo temp st)) = temp_dir st
    /\ existsb is_sync new = false
    /\ (is_done (fst (clone_repository host repo temp st)) = true ->
        new = map succeeded (clone_calls temp repo)).
Proof.
  unfold clone_repository, attempt_except, and_then, lift, logging, pure, fail.
  destruct repo as [| b | z | f | s | items | members];
    try (exists []; cbn; rewrite app_nil_r; repeat split; discriminate).
  cbn [split_repo fst snd]. rewrite ask_run. cbn [fst snd outside calls].
  destruct (git_clone host _ _ (outside st)) as [[e|[]] w1] eqn:Eclone;
    cbn [fst snd is_done].
  - eexists. split; [|split; [|split]].
    + destruct e; cbn; reflexivity.
    + destruct e; reflexivity.
    + reflexivity.
    + destruct e; discriminate.
  - rewrite ask_run. cbn [fst snd outside calls temp_dir records].
    destruct (cleanup_on_disk host _ w1) as [[e|[]] w2] eqn:Eclean;
      cbn [fst snd is_done].
    + eexists. split; [|split; [|split]].
      * destruct e; cbn; rewrite <- app_assoc; reflexivity.
      * destruct e; reflexivity.
      * reflexivity.
      * destruct e; discriminate.
    + eexists. split; [|split; [|split]].
      * cbn. rewrite <- app_assoc. reflexivity.
      * reflexivity.
      * reflexivity.
      * reflexivity.
Qed.

Lemma each_clone_run (temp : pystr) (items : list json) (st : run W) :
  exists new,
    calls (snd (each items (fun repo => clone_repository host repo temp) st))
    = calls st ++ new
    /\ temp_dir (snd (each items (fun repo => clone_repository host repo temp) st))
       = temp_dir st
    /\ existsb is_sync new = false
    /\ (is_done (fst (each items (fun repo => clone_repository host repo temp) st))
        = true ->
        new = map succeeded (flat_map (clone_calls temp) items)).
Proof.
  revert st. induction items as [|repo items IH]; intros st.
  - exists []. cbn. rewrite app_nil_r. repeat split.
  - cbn [each]. unfold and_then.
    destruct (clone_repository_run repo temp st) as (new1 & Hc & Ht & Hs & Hd).
    destruct (clone_repository host repo temp st) as [[e|[]] st1].
    + exists new1. cbn in *. repeat split; try assumption. discriminate.
    + cbn [fst snd is_done] in *.
      destruct (IH st1) as (new2 & Hc2 & Ht2 & Hs2 & Hd2).
      exists (new1 ++ new2). split; [|split; [|split]].
      * rewrite Hc2, Hc. now rewrite app_assoc.
      * now rewrite Ht2.
      * rewrite existsb_app, Hs, Hs2. reflexivity.
      * intros H. cbn [flat_map]. rewrite map_app, <- (Hd eq_refl), <- (Hd2 H).
        reflexivity.
Qed.

Lemma sync_to_s3_run (local_dir bucket : pystr) (st : run W) :
  calls (snd (sync_to_s3 host local_dir bucket st))
  = calls st ++ [(S3Sync local_dir (py "s3://" ++ bucket ++ py "/"),
                  is_done (fst (sync_to_s3 host local_dir bucket st)))]
  /\ temp_dir (snd (sync_to_s3 host local_dir bucket st)) = temp_dir st.
Proof.
  unfold sync_to_s3, attempt_except, and_then, logging, pure.
  rewrite ask_run. cbn [fst snd outside calls temp_dir records].
  destruct (aws_s3_sync host _ _ (outside st)) as [[e|out] w1];
    cbn [fst snd is_done]; [destruct e|]; cbn; split; reflexivity.
Qed.

(** The [except Exception] clause touches neither the calls nor the
    temporary directory, and ends as a failure of the [try] block does. *)
Lemma on_error_run (e : error) (st st' : run W) (r : attempt reply) :
  on_error host e st = (r, st') ->
  failed_outcome r /\ calls st' = calls st /\ temp_dir st' = temp_dir st.
Proof.
  destruct e; cbn; intros E; inversion E; subst; cbn; auto.
Qed.

(** The [try] block with its [except] clause; the cases are: the event
    is rejected; something fails before the temporary directory exists;
    a clone fails; the sync is run. *)
Lemma guarded_body_run (event : json) (st st' : run W) (r : attempt reply) :
  attempt_except (handler_body host event) (on_error host) st = (r, st') ->
  (r = Done missing_input /\ st' = st)
  \/ (failed_outcome r
      /\ (calls st' = calls st
          \/ calls st' = calls st ++ [(Mkdtemp, false)])
      /\ temp_dir st' = temp_dir st)
  \/ exists temp w1 repos items,
      mkdtemp host (outside st) = (Done temp, w1)
      /\ temp_dir st' = Some temp
      /\ get event (py "repositories") (JArr []) = Done repos
      /\ iter repos = Done items
      /\ ((failed_outcome r
           /\ exists more,
               calls st' = calls st ++ (Mkdtemp, true) :: more
               /\ existsb is_sync more = false)
          \/ exists ok destination,
              calls st'
              = calls st
                ++ map succeeded
                     (Mkdtemp :: flat_map (clone_calls temp) items)
                ++ [(S3Sync temp destination, ok)]
              /\ if ok
                 then exists rep, r = Done rep /\ statusCode rep = 200%Z
                 else failed_outcome r).
Proof.
  unfold attempt_except, handler_body, and_then at 1, lift. intros E.
  destruct (get event (py "repositories") (JArr [])) as [e|repos] eqn:Eget.
  { apply on_error_run in E as (Hr & Hc & Ht). right; left. auto. }
  destruct (negb (truthy repos) || negb (truthy_opt (environ_bucket host)))
    eqn:Emiss.
  { inversion E; subst; clear E. left. split; reflexivity. }
  unfold and_then at 1 in E.
  destruct (len repos) as [e|count] eqn:Elen.
  { apply on_error_run in E as (Hr & Hc & Ht). right; left. auto. }
  unfold and_then at 1, logging at 1 in E. unfold and_then at 1 in E.
  rewrite ask_run in E. cbn [fst snd outside calls temp_dir records] in E.
  destruct (mkdtemp host (outside st)) as [[e|temp] w1] eqn:Etemp;
    cbn [fst snd is_done] in E.
  { apply on_error_run in E as (Hr & Hc & Ht). right; left. cbn in *. auto. }
  unfold and_then at 1, set_temp_dir at 1 in E.
  cbn [fst snd outside calls temp_dir records] in E.
  assert (Hiter : exists items, iter repos = Done items).
  { destruct repos; try discriminate; eexists; reflexivity. }
  destruct Hiter as [items Eiter]. rewrite Eiter in E.
  unfold and_then at 1 in E. unfold and_then at 1 in E.
  match type of E with
  | context [each items ?body ?s] =>
    destruct (each_clone_run temp items s) as (new & Hc & Ht & Hs & Hd);
    destruct (each items body s) as [[e|[]] st1]
  end; cbn [fst snd is_done outside calls temp_dir records] in *.
  { apply on_error_run in E as (Hr & Hc' & Ht'). right; right.
    exists temp, w1, repos, items. rewrite Ht', Ht.
    repeat split; try assumption.
    left. split; [assumption|]. exists new. rewrite Hc', Hc, <- app_assoc.
    split; [reflexivity|assumption]. }
  unfold and_then at 1 in E.
  match type of E with
  | context [sync_to_s3 host ?d ?b ?s] =>
    destruct (sync_to_s3_run d b s) as (Hc2 & Ht2);
    destruct (sync_to_s3 host d b s) as [[e|out] st2]
  end; cbn [fst snd is_done] in *.
  - apply on_error_run in E as (Hr & Hc' & Ht'). right; right.
    exists temp, w1, repos, items. rewrite Ht', Ht2, Ht.
    repeat split; try assumption.
    right. eexists false, _. rewrite Hc', Hc2, Hc, (Hd eq_refl).
    split; [|assumption]. cbn. now rewrite <- !app_assoc.
  - inversion E; subst; clear E. right; right.
    exists temp, w1, repos, items. cbn. rewrite Ht2, Ht.
    repeat split; try assumption.
    right. eexists true, _. rewrite Hc2, Hc, (Hd eq_refl).
    split; [|eexists; split; reflexivity]. cbn. now rewrite <- !app_assoc.
Qed.

(** The [finally] clause: nothing without a temporary directory; else
    one test, and the removal when the directory exists. *)
Lemma remove_temp_dir_run (st : run W) :
  temp_dir (snd (remove_temp_dir host st)) = temp_dir st
  /\ match temp_dir st with
     | Some (c :: s) =>
       if path_exists host (c :: s) (outside st)
       then calls (snd (remove_temp_dir host st))
            = calls st
              ++ [(PathExists (c :: s), true);
                  (Rmtree (c :: s),
                   is_done (fst (remove_temp_dir host st)))]
       else fst (remove_temp_dir host st) = Done tt
            /\ calls (snd (remove_temp_dir host st))
               = calls st ++ [(PathExists (c :: s), false)]
     | _ => remove_temp_dir host st = (Done tt, st)
     end.
Proof.
  unfold remove_temp_dir, and_then, get_temp_dir, ask_exists, pure.
  destruct (temp_dir st) as [[|c s]|] eqn:Et; cbn [fst snd]; auto.
  destruct (path_exists host (c :: s) (outside st)) eqn:Ex.
  - rewrite ask_run. cbn. rewrite <- app_assoc. auto.
  - cbn. auto.
Qed.

Lemma lambda_handler_run (event : json) (w : W) (r : attempt reply)
      (st' : run W) :
  lambda_handler host event (fresh w) = (r, st') ->
  exists r1 st1 r2,
    attempt_except (handler_body host event) (on_error host) (fresh w)
    = (r1, st1)
    /\ remove_temp_dir host st1 = (r2, st')
    /\ r = match r2 with Failed e => Failed e | Done _ => r1 end.
Proof.
  change (lambda_handler host event (fresh w))
    with (attempt_finally
            (attempt_except (handler_body host event) (on_error host))
            (remove_temp_dir host) (fresh w)).
  unfold attempt_finally.
  destruct (attempt_except (handler_body host event) (on_error host) (fresh w))
    as [r1 st1] eqn:E1.
  destruct (remove_temp_dir host st1) as [[e|[]] st2] eqn:E2;
    intros E; inversion E; subst;
    eexists _, st1, _; (split; [reflexivity|]); (split; [exact E2|reflexivity]).
Qed.

Lemma successful_sync_is_sync (l : list (call * bool)) :
  existsb is_sync l = false -> existsb successful_sync l = false.
Proof.
  induction l as [|x l IH]; cbn; [reflexivity|].
  intros H. apply orb_false_iff in H as [Hx Hl].
  unfold successful_sync at 1. now rewrite Hx, (IH Hl).
Qed.

Lemma clone_calls_no_sync (temp : pystr) (items : list json) :
  existsb is_sync (map succeeded (flat_map (clone_calls temp) items)) = false.
Proof.
  induction items as [|repo items IH]; cbn [flat_map map]; [reflexivity|].
  rewrite map_app, existsb_app, IH. now destruct repo.
Qed.

(** Where the one sync of a record of calls is. *)
Lemma sync_position (A F before after : list (call * bool))
      (x entry : call * bool) :
  existsb is_sync A = false -> existsb is_sync F = false ->
  A ++ x :: F = before ++ entry :: after -> is_sync entry = true ->
  before = A /\ entry = x /\ after = F.
Proof.
  intros HA HF. revert before. induction A as [|a A IH]; intros before E Hs.
  - destruct before as [|b before]; cbn in E; inversion E; subst.
    + auto.
    + exfalso. rewrite existsb_app in HF. cbn in HF. rewrite Hs in HF.
      now rewrite orb_true_r in HF.
  - cbn in HA. apply orb_false_iff in HA as [Ha HA].
    destruct before as [|b before]; cbn in E; inversion E; subst.
    + congruence.
    + destruct (IH HA before H1 Hs) as (-> & -> & ->). auto.
Qed.

Lemma no_sync_no_position (l before after : list (call * bool))
      (entry : call * bool) :
  existsb is_sync l = false -> l = before ++ entry :: after ->
  is_sync entry = true -> False.
Proof.
  intros H -> Hs. rewrite existsb_app in H. cbn in H. rewrite Hs in H.
  now rewrite orb_true_r in H.
Qed.

(** An invocation from a fresh state, as a whole: the calls of the
    [try] block, then those of the [finally] clause; [r1] is how the
    [try] block with its [except] clause ended. *)
Lemma handler_cases (event : json) (w : W) (r : attempt reply) (st' : run W) :
  lambda_handler host event (fresh w) = (r, st') ->
  exists r1 body final,
    calls st' = body ++ final
    /\ existsb is_sync final = false
    /\ (r = r1
        \/ (exists e, r = Failed e)
           /\ exists path, final = [(PathExists path, true);
                                    (Rmtree path, false)])
    /\ ((r1 = Done missing_input /\ st' = fresh w)
        \/ (failed_outcome r1
            /\ (body = [] \/ body = [(Mkdtemp, false)])
            /\ final = [] /\ r = r1)
        \/ exists temp w1 repos items,
            mkdtemp host w = (Done temp, w1)
            /\ get event (py "repositories") (JArr []) = Done repos
            /\ iter repos = Done items
            /\ ((temp = [] /\ final = [])
                \/ final = [(PathExists temp, false)]
                \/ exists ok, final = [(PathExists temp, true);
                                       (Rmtree temp, ok)])
            /\ ((failed_outcome r1
                 /\ exists more,
                     body = (Mkdtemp, true) :: more
                     /\ existsb is_sync more = false)
                \/ exists ok destination,
                    body = map succeeded
                             (Mkdtemp :: flat_map (clone_calls temp) items)
                           ++ [(S3Sync temp destination, ok)]
                    /\ if ok
                       then exists rep,
                           r1 = Done rep /\ statusCode rep = 200%Z
                       else failed_outcome r1)).
Proof.
  intros E.
  destruct (lambda_handler_run _ _ _ _ E) as (r1 & st1 & r2 & E1 & E2 & ->).
  pose proof (guarded_body_run _ _ _ _ E1) as Hbody.
  destruct (remove_temp_dir_run st1) as [_ Hfin]. rewrite E2 in Hfin.
  cbn [fst snd] in Hfin.
  destruct Hbody as [[-> ->] | [(Hfail & Hcalls & Htemp)
                               | (temp & w1 & repos & items & Hmk & Htemp
                                  & Hget & Hiter & Hcalls)]].
  - cbn in Hfin. injection Hfin as -> ->. exists (Done missing_input), [], [].
    cbn. auto 6.
  - rewrite Htemp in Hfin. cbn in Hfin. injection Hfin as -> ->.
    exists r1, (calls st1), []. rewrite app_nil_r. cbn in Hcalls.
    split; [reflexivity|]. split; [reflexivity|]. split; [auto|].
    right; left. repeat split; auto.
  - rewrite Htemp in Hfin. cbn [outside fresh] in Hmk.
    cbn [calls fresh app] in Hcalls.
    destruct temp as [|c s].
    + injection Hfin as -> ->. exists r1, (calls st1), [].
      rewrite app_nil_r. split; [reflexivity|]. split; [reflexivity|].
      split; [auto|]. right; right. exists [], w1, repos, items. auto 8.
    + destruct (path_exists host (c :: s) (outside st1)).
      * exists r1, (calls st1), [(PathExists (c :: s), true);
                                 (Rmtree (c :: s), is_done r2)].
        rewrite Hfin. split; [reflexivity|]. split; [reflexivity|].
        split.
        { destruct r2 as [e|[]]; [right|left; reflexivity].
          split; [now exists e|]. now exists (c :: s). }
        right; right. exists (c :: s), w1, repos, items.
        repeat split; auto. right; right. now eexists.
      * destruct Hfin as [-> Hfin].
        exists r1, (calls st1), [(PathExists (c :: s), false)].
        rewrite Hfin. split; [reflexivity|]. split; [reflexivity|].
        split; [auto|].
        right; right. exists (c :: s), w1, repos, items.
        repeat split; auto.
Qed.

(** X19.  [lambda_handler] raises in two cases only: the removal of the
    temporary directory in the [finally] clause failed, or what was
    raised is not an [Exception] (a [KeyboardInterrupt], a
    [SystemExit]), which [except Exception] does not catch.  In every
    other case it returns a reply whose status is 200, 400 or 500. *)
Theorem handler_raises_only_uncaught (event : json) (w : W) :
  match fst (lambda_handler host event (fresh w)) with
  | Done rep => In (statusCode rep) [200; 400; 500]%Z
  | Failed e =>
    (exists before path,
        calls (snd (lambda_handler host event (fresh w)))
        = before ++ [(PathExists path, true); (Rmtree path, false)])
    \/ is_Exception e = false
  end.
Proof.
  destruct (lambda_handler host event (fresh w)) as [r st'] eqn:E.
  destruct (handler_cases _ _ _ _ E)
    as (r1 & body & final & Hcalls & _ & Hr & Hcases).
  cbn [fst snd].
  destruct Hr as [-> | [[e ->] [path ->]]]; [|left; now exists body, path].
  assert (Hfail : failed_outcome r1 ->
            match r1 with
            | Done rep => In (statusCode rep) [200; 400; 500]%Z
            | Failed e =>
              (exists before path,
                  calls st' = before ++ [(PathExists path, true);
                                         (Rmtree path, false)])
              \/ is_Exception e = false
            end).
  { destruct r1 as [e|rep]; cbn; [auto|]. intros ->. auto. }
  destruct Hcases as [[-> _] | [(H500 & _) | (temp & w1 & repos & items & _
                                              & _ & _ & _ & Hst)]].
  - cbn. auto.
  - exact (Hfail H500).
  - destruct Hst as [[H500 _] | (ok & dest & _ & Hok)]; [exact (Hfail H500)|].
    destruct ok; [|exact (Hfail Hok)].
    destruct Hok as (rep & -> & ->). cbn. auto.
Qed.

(** X20.  When [lambda_handler] returns, its reply has status 200 exactly
    when [aws s3 sync] was run and succeeded. *)
Theorem status_200_iff_synced (event : json) (w : W) (rep : reply) :
  fst (lambda_handler host event (fresh w)) = Done rep ->
  statusCode rep = 200%Z
  <-> existsb successful_sync
        (calls (snd (lambda_handler host event (fresh w)))) = true.
Proof.
  destruct (lambda_handler host event (fresh w)) as [r st'] eqn:E.
  destruct (handler_cases _ _ _ _ E)
    as (r1 & body & final & Hcalls & Hfinal & Hr & Hcases).
  cbn [fst snd]. intros ->.
  destruct Hr as [<- | [[e Hr] _]]; [|discriminate].
  rewrite Hcalls, existsb_app, (successful_sync_is_sync _ Hfinal), orb_false_r.
  destruct Hcases as [[Hrep ->] | [(H500 & Hbody & _)
                                  | (temp & w1 & repos & items & _ & _ & _ & _
                                     & Hst)]].
  - inversion Hrep; subst rep.
    cbn in Hcalls. symmetry in Hcalls. apply app_eq_nil in Hcalls as [-> _].
    cbn. split; discriminate.
  - cbn in H500. rewrite H500.
    destruct Hbody as [-> | ->]; cbn; split; discriminate.
  - destruct Hst as [(H500 & more & -> & Hmore) | (ok & dest & -> & Hok)].
    + cbn in H500. rewrite H500. cbn [existsb].
      rewrite (successful_sync_is_sync _ Hmore). cbn. split; discriminate.
    + rewrite existsb_app.
      rewrite (successful_sync_is_sync _ (clone_calls_no_sync temp items
                 : existsb is_sync (map succeeded
                      (Mkdtemp :: flat_map (clone_calls temp) items)) = false)).
      destruct ok.
      * destruct Hok as (rep' & Hrep & H200). inversion Hrep; subst rep'.
        rewrite H200. cbn. split; reflexivity.
      * cbn in Hok. rewrite Hok. cbn. split; discriminate.
Qed.

(** X21.  Whenever [aws s3 sync] is run, what was done before it is
    exactly: the temporary directory was made, and every repository of
    the event, in order, was cloned and cleaned up; each of these calls
    succeeded.  So a failed clone or clean-up prevents the sync. *)
Theorem sync_follows_every_clone (event : json) (w : W)
        (before after : list (call * bool)) (entry : call * bool) :
  calls (snd (lambda_handler host event (fresh w)))
  = before ++ entry :: after ->
  is_sync entry = true ->
  exists repos items temp,
    get event (py "repositories") (JArr []) = Done repos
    /\ iter repos = Done items
    /\ before
       = map succeeded (Mkdtemp :: flat_map (clone_calls temp) items).
Proof.
  destruct (lambda_handler host event (fresh w)) as [r st'] eqn:E.
  destruct (handler_cases _ _ _ _ E)
    as (r1 & body & final & Hcalls & Hfinal & _ & Hcases).
  cbn [fst snd]. rewrite Hcalls. intros Hpos Hsync.
  destruct Hcases as [[_ ->] | [(_ & Hbody & -> & _)
                                | (temp & w1 & repos & items & _ & Hget
                                   & Hiter & _ & Hst)]].
  - cbn in Hcalls. symmetry in Hcalls. apply app_eq_nil in Hcalls as [-> ->].
    destruct before; discriminate.
  - exfalso. rewrite app_nil_r in Hpos.
    apply (no_sync_no_position body before after entry); auto.
    destruct Hbody as [-> | ->]; reflexivity.
  - destruct Hst as [(_ & more & -> & Hmore) | (ok & dest & -> & _)].
    + exfalso.
      apply (no_sync_no_position _ before after entry) in Hpos; auto.
      rewrite existsb_app, Hfinal. cbn. now rewrite Hmore.
    + rewrite <- app_assoc in Hpos. cbn [app] in Hpos.
      apply sync_position in Hpos as (-> & _ & _); auto.
      * now exists repos, items, temp.
      * exact (clone_calls_no_sync temp items).
Qed.

(** X22.  Once [tempfile.mkdtemp] has returned a directory, the
    invocation ends, whatever happened in between, by testing that
    directory and removing it when it exists; nothing is called after
    that. *)
Theorem temporary_directory_is_removed (event : json) (w w1 : W)
        (temp : pystr) :
  mkdtemp host w = (Done temp, w1) ->
  temp <> [] ->
  In (Mkdtemp, true) (calls (snd (lambda_handler host event (fresh w)))) ->
  exists before,
    calls (snd (lambda_handler host event (fresh w)))
    = before ++ [(PathExists temp, false)]
    \/ exists ok,
        calls (snd (lambda_handler host event (fresh w)))
        = before ++ [(PathExists temp, true); (Rmtree temp, ok)].
Proof.
  destruct (lambda_handler host event (fresh w)) as [r st'] eqn:E.
  destruct (handler_cases _ _ _ _ E)
    as (r1 & body & final & Hcalls & _ & _ & Hcases).
  cbn [fst snd]. rewrite Hcalls. intros Hmk Htemp Hin.
  destruct Hcases as [[_ ->] | [(_ & Hbody & -> & _)
                                | (temp' & w1' & repos & items & Hmk' & _
                                   & _ & Hfin & _)]].
  - cbn in Hcalls. symmetry in Hcalls. apply app_eq_nil in Hcalls as [-> ->].
    elim Hin.
  - rewrite app_nil_r in Hin.
    destruct Hbody as [-> | ->]; [elim Hin|].
    destruct Hin as [Hin | []]. discriminate.
  - rewrite Hmk in Hmk'. inversion Hmk'; subst temp' w1'.
    exists body.
    destruct Hfin as [[-> _] | [-> | [ok ->]]]; [now elim Htemp|auto|eauto].
Qed.

(** X23.  A reply of status 400 means that nothing was done: no call was
    made on the outside and nothing was logged. *)
Theorem rejected_event_touches_nothing (event : json) (w : W) (rep : reply) :
  fst (lambda_handler host event (fresh w)) = Done rep ->
  statusCode rep = 400%Z ->
  rep = missing_input
  /\ snd (lambda_handler host event (fresh w)) = fresh w.
Proof.
  destruct (lambda_handler host event (fresh w)) as [r st'] eqn:E.
  destruct (handler_cases _ _ _ _ E)
    as (r1 & body & final & _ & _ & Hr & Hcases).
  cbn [fst snd]. intros -> H400.
  destruct Hr as [<- | [[e Hr] _]]; [|discriminate].
  destruct Hcases as [[Hrep ->] | [(H500 & _)
                                  | (temp & w1 & repos & items & _ & _ & _ & _
                                     & Hst)]].
  - inversion Hrep. auto.
  - cbn in H500. rewrite H500 in H400. discriminate.
  - destruct Hst as [(H500 & _) | (ok & dest & _ & Hs)].
    + cbn in H500. rewrite H500 in H400. discriminate.
    + destruct ok.
      * destruct Hs as (rep' & Hrep & H200). inversion Hrep; subst rep'.
        rewrite H200 in H400. discriminate.
      * cbn in Hs. rewrite Hs in H400. discriminate.
Qed.

(** X24.  The directory a repository is cloned into is named after the
    last segment of its name alone: the owner plays no part in it, so
    two repositories of the same name under different owners are cloned
    to the same path. *)
Theorem clone_directory_ignores_owner (owner name temp : pystr)
        (st : run W) :
  forallb (fun c => negb (c =? 47)%N) name = true ->
  exists ok rest,
    calls (snd (clone_repository host (JStr (owner ++ py "/" ++ name)) temp st))
    = calls st
      ++ (GitClone (py "https://github.com/" ++ owner ++ py "/" ++ name
                    ++ py ".git")
                   (path_join temp name), ok) :: rest.
Proof.
  intros Hname.
  unfold clone_repository, attempt_except, and_then, lift, logging.
  rewrite (repo_name_is_last_segment owner name Hname).
  cbn [fst snd]. rewrite ask_run. cbn [fst snd outside calls temp_dir records].
  rewrite <- !app_assoc.
  destruct (git_clone host _ _ (outside st)) as [[e|[]] w1];
    cbn [fst snd is_done].
  - exists false, []. destruct e; reflexivity.
  - rewrite ask_run. cbn [fst snd outside calls temp_dir records].
    destruct (cleanup_on_disk host _ w1) as [[e|[]] w2];
      cbn [fst snd is_done].
    + eexists true, _. destruct e; cbn; rewrite <- app_assoc; reflexivity.
    + eexists true, _. cbn. rewrite <- app_assoc. reflexivity.
Qed.

End UploaderFacts.

(** An interrupt during a clone leaves the handler, after the temporary
    directory was removed with success and with no sync made. *)
Example interrupted_clone_leaves_handler :
  fst (lambda_handler interrupted_host
         (repositories [py "opensearch-project/opensearch-build"]) (fresh 0))
  = Failed (BaseException "KeyboardInterrupt")
  /\ map fst
       (calls (snd (lambda_handler interrupted_host
                      (repositories [py "opensearch-project/opensearch-build"])
                      (fresh 0))))
     = [ Mkdtemp;
         GitClone (py "https://github.com/opensearch-project/opensearch-build.git")
                  (py "/tmp/tmpab12/opensearch-build");
         PathExists (py "/tmp/tmpab12");
         Rmtree (py "/tmp/tmpab12") ]
  /\ last (calls (snd (lambda_handler interrupted_host
                         (repositories [py "opensearch-project/opensearch-build"])
                         (fresh 0))))
          (Mkdtemp, false)
     = (Rmtree (py "/tmp/tmpab12"), true).
Proof. vm_compute. repeat split. Qed.

Lemma status_200_iff_synced_witness :
  statusCode
    {| statusCode := 200;
       message := py "Successfully synced 1 repositories";
       sync_output := Some (py "upload: README.md") |} = 200%Z
  <-> existsb successful_sync
        (calls (snd (lambda_handler sample_host
                       (repositories [py "opensearch-project/opensearch-build"])
                       (fresh 0)))) = true.
Proof.
  apply (status_200_iff_synced nat sample_host). vm_compute. reflexivity.
Defined.

Lemma sync_follows_every_clone_witness :
  exists repos items temp,
    get (repositories [py "opensearch-project/opensearch-build"])
        (py "repositories") (JArr []) = Done repos
    /\ iter repos = Done items
    /\ firstn 3 (calls (snd (lambda_handler sample_host
                   (repositories [py "opensearch-project/opensearch-build"])
                   (fresh 0))))
       = map succeeded (Mkdtemp :: flat_map (clone_calls temp) items).
Proof.
  apply (sync_follows_every_clone nat sample_host
           (repositories [py "opensearch-project/opensearch-build"]) 0
           _
           [(PathExists (py "/tmp/tmpab12"), true);
            (Rmtree (py "/tmp/tmpab12"), true)]
           (S3Sync (py "/tmp/tmpab12") (py "s3://oscar-docs/"), true)).
  - vm_compute. reflexivity.
  - reflexivity.
Defined.

Lemma temporary_directory_is_removed_witness :
  exists before,
    calls (snd (lambda_handler sample_host
                  (repositories [py "broken/repo"]) (fresh 0)))
    = before ++ [(PathExists (py "/tmp/tmpab12"), false)]
    \/ exists ok,
        calls (snd (lambda_handler sample_host
                      (repositories [py "broken/repo"]) (fresh 0)))
        = before ++ [(PathExists (py "/tmp/tmpab12"), true);
                     (Rmtree (py "/tmp/tmpab12"), ok)].
Proof.
  apply (temporary_directory_is_removed nat sample_host
           (repositories [py "broken/repo"]) 0 0 (py "/tmp/tmpab12")).
  - reflexivity.
  - discriminate.
  - vm_compute. left. reflexivity.
Defined.

Lemma rejected_event_touches_nothing_witness :
  missing_input = missing_input
  /\ snd (lambda_handler sample_host (JObj []) (fresh 0)) = fresh 0.
Proof.
  apply (rejected_event_touches_nothing nat sample_host (JObj []) 0
           missing_input); reflexivity.
Defined.

Lemma clone_directory_ignores_owner_witness :
  exists ok rest,
    calls (snd (clone_repository sample_host
                  (JStr (py "opensearch-project" ++ py "/"
                         ++ py "opensearch-build"))
                  (py "/tmp/tmpab12") (fresh 0)))
    = calls (fresh 0)
      ++ (GitClone (py "https://github.com/" ++ py "opensearch-project"
                    ++ py "/" ++ py "opensearch-build" ++ py ".git")
                   (path_join (py "/tmp/tmpab12") (py "opensearch-build")),
          ok) :: rest.
Proof.
  apply (clone_directory_ignores_owner nat sample_host
           (py "opensearch-project") (py "opensearch-build")
           (py "/tmp/tmpab12") (fresh 0)).
  vm_compute. reflexivity.
Defined.
